(** * Data Salaries Dashboard: the filter-and-aggregate pipeline of [project.py]

    The script loads a table of salary records, builds four sidebar
    selections, keeps the rows whose four categorical columns belong to the
    selections, and derives the KPI metrics and the chart tables from the
    kept rows.  This development embeds that pipeline: a data frame is the
    list of its rows, a column is the list of one field, and every pandas
    call of the script is a list function named after it.

    Numbers.  [ano] and [usd] are whole numbers (int64 columns); they are
    modelled as [Z].  [Pandas.mean] and the grouped means are the exact
    rationals [sum / count]; [Pandas.mean64] is the float64 that pandas
    computes for the mean of a column, a float being the rational it
    denotes.  Strings are byte strings (UTF-8); Python compares [str] by
    code point, which is the byte-wise lexicographic order of
    [String.compare].

    Library routines whose result the libraries do not pin down are
    parameters: the default sort of numpy ([kind='quicksort'], not
    stable), which leaves equal values in an order of its own, and the
    order in which numpy adds the entries of a float array. *)

From Stdlib Require Import List ZArith QArith Qround String Ascii Bool Arith Lia.
From Stdlib Require Import Sorted Permutation.
From Stdlib Require DecimalString DecimalNat.
Import ListNotations.

Local Open Scope string_scope.
Local Open Scope list_scope.
Local Open Scope Z_scope.

(* ================================================================== *)
(** ** Rows and frames *)

(** One line of the CSV, with the column names of the file. *)
Record Row : Type := mkRow {
  ano : Z;
  senioridade : string;
  contrato : string;
  tamanho_empresa : string;
  cargo : string;
  usd : Z;
  remoto : string;
  residencia_iso3 : string
}.

Definition DataFrame : Type := list Row.

(** [df[name]] : the column of a field. *)
Definition column {A : Type} (f : Row -> A) (df : DataFrame) : list A :=
  map f df.

(** [df.empty] and [df.shape[0]]. *)
Definition empty (df : DataFrame) : bool :=
  match df with [] => true | _ :: _ => false end.

Definition shape0 (df : DataFrame) : nat := List.length df.

(* ================================================================== *)
(** ** Ordering and sorting

    [sorted(...)] of Python and the stable sorts of pandas are modelled by
    one stable insertion sort over a boolean "less or equal". *)

Section Sorting.
Context {A : Type}.
Variable leb : A -> A -> bool.

Fixpoint insert (x : A) (l : list A) : list A :=
    match l with
    | [] => [x]
    | y :: l' => if leb x y then x :: l else y :: insert x l'
    end.

Fixpoint sort (l : list A) : list A :=
    match l with
    | [] => []
    | x :: l' => insert x (sort l')
    end.
End Sorting.

(* ================================================================== *)
(** ** The pandas calls used by the filter *)

Module Pandas.

Section Series.
Context {A : Type}.
Variable eqb : A -> A -> bool.

  (** [x in values], the test behind [Series.isin]. *)
Definition mem (x : A) (values : list A) : bool :=
    existsb (eqb x) values.

  (** [s.isin(values)] : the boolean mask, one entry per row. *)
Definition isin (s : list A) (values : list A) : list bool :=
    map (fun x => mem x values) s.

  (** [s.unique()] : the distinct values in order of first appearance. *)
Fixpoint unique_acc (seen : list A) (s : list A) : list A :=
    match s with
    | [] => []
    | x :: s' =>
        if mem x seen then unique_acc seen s'
        else x :: unique_acc (x :: seen) s'
    end.

Definition unique (s : list A) : list A := unique_acc [] s.
End Series.

(** [m1 & m2] on boolean masks: element-wise conjunction. *)
Fixpoint mask_and (m1 m2 : list bool) : list bool :=
  match m1, m2 with
  | b1 :: m1', b2 :: m2' => (b1 && b2)%bool :: mask_and m1' m2'
  | _, _ => []
  end.

(** [df[mask]] : the rows whose mask entry is [True], in frame order.
    pandas rejects a mask whose length differs from the frame's; the masks
    of the script are built from the frame's own columns (see
    [selection_mask_length]), so that case is not reachable here. *)
Fixpoint getitem_mask {R : Type} (df : list R) (mask : list bool) : list R :=
  match df, mask with
  | r :: df', b :: mask' =>
      if b then r :: getitem_mask df' mask' else getitem_mask df' mask'
  | _, _ => []
  end.

(** *** Reductions of a numeric column *)

(** [s.sum()]. *)
Definition sum (s : list Z) : Z := fold_left Z.add s 0.

(** [s.mean()] as an exact number: the sum over the count; [None] is the
    NaN that pandas returns for an empty series.  The float64 that pandas
    computes for it is [mean64] below. *)
Definition mean (s : list Z) : option Q :=
  match s with
  | [] => None
  | _ :: _ => Some (sum s # Pos.of_nat (List.length s))
  end.

(** [s.max()] : [None] is the NaN of an empty series. *)
Definition max (s : list Z) : option Z :=
  match s with
  | [] => None
  | x :: s' => Some (fold_left Z.max s' x)
  end.

(** *** Hash-table passes: [value_counts], [mode], [groupby]

    pandas walks the rows once and keeps one accumulator per distinct key,
    the keys in order of first appearance. *)

Section Tables.
Context {K X V : Type}.
Variable eqb : K -> K -> bool.

Fixpoint lookup (k : K) (tbl : list (K * V)) : option V :=
    match tbl with
    | [] => None
    | (k', v) :: tbl' => if eqb k k' then Some v else lookup k tbl'
    end.

  (** Replace the accumulator of [k], or append a new one. *)
Fixpoint update (k : K) (f : option V -> V) (tbl : list (K * V))
    : list (K * V) :=
    match tbl with
    | [] => [(k, f None)]
    | (k', v) :: tbl' =>
        if eqb k k' then (k', f (Some v)) :: tbl'
        else (k', v) :: update k f tbl'
    end.

Variable init : X -> V.
Variable step : V -> X -> V.

Definition observe (tbl : list (K * V)) (kx : K * X) : list (K * V) :=
    update (fst kx)
      (fun o => match o with
                | None => init (snd kx)
                | Some v => step v (snd kx)
                end) tbl.

Definition aggregate (obs : list (K * X)) : list (K * V) :=
    fold_left observe obs [].
End Tables.

Section Mode.
Context {A : Type}.
Variable eqb : A -> A -> bool.
Variable leb : A -> A -> bool.

  (** The counting pass behind [value_counts] and [mode]. *)
Definition value_count (s : list A) : list (A * nat) :=
    aggregate eqb (fun _ : unit => 1%nat) (fun n _ => S n)
      (map (fun x => (x, tt)) s).

Definition max_count (vc : list (A * nat)) : nat :=
    fold_left Nat.max (map snd vc) 0%nat.

  (** [s.mode()] : every value whose count is the largest one, sorted. *)
Definition mode (s : list A) : list A :=
    let vc := value_count s in
    sort leb (map fst (filter (fun kc => snd kc =? max_count vc)%nat vc)).
End Mode.

(** A series of means indexed by a string key, one pair per index entry. *)
Definition Series : Type := list (string * Q).

(** [df.groupby(key)[val].mean()] : one pass accumulating the sum and the
    number of observations of each key, the result indexed by the sorted
    keys ([sort=True] is the default of [groupby]). *)
Definition groupby_mean (obs : list (string * Z)) : Series :=
  map (fun e => (fst e, fst (snd e) # Pos.of_nat (snd (snd e))))
    (sort (fun a b => String.leb (fst a) (fst b))
       (aggregate String.eqb
          (fun x => (x, 1%nat))
          (fun v x => (fst v + x, S (snd v)))
          obs)).

(** The comparison of two entries of a series by value. *)
Definition value_leb (a b : string * Q) : bool := Qle_bool (snd a) (snd b).

(** The comparison of the negated values, as [nlargest] sorts them. *)
Definition neg_value_leb (a b : string * Q) : bool :=
  Qle_bool (- snd a) (- snd b).

(** [algos.kth_smallest(arr, k)] : the value found at place [k] once the
    array is in rising order. *)
Definition kth_smallest (arr : list Q) (k : nat) : Q :=
  nth k (sort Qle_bool arr) 0%Q.

Section Quicksort.
(** The default sort of numpy, [kind='quicksort'], applied to a series by
    value.  It is not stable: the series comes back in rising order of
    value, and the order of entries of equal value is the routine's own
    (see [sorts_by_value]). *)
Variable quicksort : Series -> Series.

(** [s.sort_values(ascending=...)].  For a descending sort pandas
    reverses the values, sorts them ascending and reverses the outcome. *)
Definition sort_values (ascending : bool) (s : Series) : Series :=
  if ascending then quicksort s
  else rev (quicksort (rev s)).

(** [s.nlargest(n)] with [keep='first'].  When [n] covers the series,
    pandas returns [sort_values(ascending=False).head(n)].  Otherwise it
    negates the values, takes the value of rank [n], keeps the entries
    not beyond it, sorts these with the stable [kind='mergesort'] and
    keeps the first [n]. *)
Definition nlargest (n : nat) (s : Series) : Series :=
  if (n =? 0)%nat then []
  else if (List.length s <=? n)%nat then firstn n (sort_values false s)
  else
    let kth_val := kth_smallest (map (fun e => (- snd e)%Q) s) (n - 1) in
    let ns := filter (fun e => Qle_bool (- snd e) kth_val) s in
    firstn n (sort neg_value_leb ns).
End Quicksort.

(** [s.reset_index()] : the index becomes an ordinary column next to the
    values; on pairs nothing changes. *)
Definition reset_index (s : Series) : list (string * Q) := s.

(** *** Frequency tables and equality masks *)

(** The comparison of two entries of a frequency table by count. *)
Definition count_leb (a b : string * nat) : bool := (snd a <=? snd b)%nat.

(** [s.value_counts()] : the counting pass, then the entries sorted by
    falling count ([sort=True] and [ascending=False] are the defaults).
    Entries of equal count are left in the order of a stable sort; no
    property below depends on that order. *)
Definition value_counts (s : list string) : list (string * nat) :=
  rev (sort count_leb (rev (value_count String.eqb s))).

(** [s == value] : the boolean mask of an equality test. *)
Definition eq_mask (s : list string) (value : string) : list bool :=
  map (fun x => String.eqb x value) s.

(** *** The float64 mean of a column *)

(** [q * 2^e]. *)
Definition scale2 (q : Q) (e : Z) : Q :=
  if 0 <=? e then (q * inject_Z (2 ^ e))%Q
  else (q / inject_Z (2 ^ (- e)))%Q.

(** Rounding to the nearest integer, a tie to the even one. *)
Definition rne (q : Q) : Z :=
  let f := Qfloor q in
  match Qcompare (q - inject_Z f) (1 # 2) with
  | Lt => f
  | Gt => f + 1
  | Eq => if Z.even f then f else f + 1
  end.

(** For [q > 0], the [e] with [2^e <= q < 2^(e+1)]. *)
Definition ilog2 (q : Q) : Z :=
  let e0 := Z.log2 (Qnum q) - Z.log2 (Z.pos (Qden q)) in
  if Qle_bool (scale2 1 e0) q then e0 else e0 - 1.

(** The float64 nearest to a positive number: 53 significant bits, the
    last one worth at least [2^-1074].  Numbers from [2^1024] on, which
    round to infinity, are out of reach of 64-bit salaries and are not
    treated apart. *)
Definition round64_pos (q : Q) : Q :=
  let e := Z.max (ilog2 q - 52) (-1074) in
  scale2 (inject_Z (rne (scale2 q (- e)))) e.

(** The float64 nearest to a number (round to nearest, ties to even). *)
Definition round64 (q : Q) : Q :=
  match Qcompare q 0 with
  | Eq => 0%Q
  | Gt => round64_pos q
  | Lt => (- round64_pos (- q))%Q
  end.

Section Float64.
(** The sum numpy computes for a float64 array.  numpy adds the entries
    in an order of its own (pairwise, in blocks) and rounds every partial
    sum; that order is not fixed here, and the parameter stands for
    whichever it is (see [float_sum]). *)
Variable fsum : list Q -> Q.

(** [s.mean()] on an int64 column, as pandas computes it: the entries
    are cast to float64, summed as floats, and the sum is divided by the
    count as a float. *)
Definition mean64 (s : list Z) : option Q :=
  match s with
  | [] => None
  | _ :: _ =>
      Some (round64
              (fsum (map (fun z => round64 (inject_Z z)) s)
               / inject_Z (Z.of_nat (List.length s))))
  end.
End Float64.

End Pandas.

(* ================================================================== *)
(** ** Sidebar selections and the filtered frame (lines 34-74) *)

(** The four lists returned by the multiselect widgets. *)
Record FilterSelection : Type := mkSelection {
  selected_years : list Z;
  selected_seniorities : list string;
  selected_contract_types : list string;
  selected_company_sizes : list string
}.

(** [sorted(df[col].unique())], the options and the default of a widget. *)
Definition available_years (df : DataFrame) : list Z :=
  sort Z.leb (Pandas.unique Z.eqb (column ano df)).

Definition available_seniorities (df : DataFrame) : list string :=
  sort String.leb (Pandas.unique String.eqb (column senioridade df)).

Definition available_contract_types (df : DataFrame) : list string :=
  sort String.leb (Pandas.unique String.eqb (column contrato df)).

Definition available_company_sizes (df : DataFrame) : list string :=
  sort String.leb (Pandas.unique String.eqb (column tamanho_empresa df)).

(** The selection when the user touches nothing: every widget returns its
    [default=]. *)
Definition default_selection (df : DataFrame) : FilterSelection :=
  {| selected_years := available_years df;
     selected_seniorities := available_seniorities df;
     selected_contract_types := available_contract_types df;
     selected_company_sizes := available_company_sizes df |}.

(** The mask between the brackets of lines 69-74. *)
Definition selection_mask (df : DataFrame) (s : FilterSelection) : list bool :=
  Pandas.mask_and
    (Pandas.mask_and
       (Pandas.mask_and
          (Pandas.isin Z.eqb (column ano df) (selected_years s))
          (Pandas.isin String.eqb (column senioridade df)
             (selected_seniorities s)))
       (Pandas.isin String.eqb (column contrato df)
          (selected_contract_types s)))
    (Pandas.isin String.eqb (column tamanho_empresa df)
       (selected_company_sizes s)).

Definition filtered_df (df : DataFrame) (s : FilterSelection) : DataFrame :=
  Pandas.getitem_mask df (selection_mask df s).

(** The row-wise reading of the mask. *)
Definition selected (s : FilterSelection) (r : Row) : bool :=
  (Pandas.mem Z.eqb (ano r) (selected_years s)
   && Pandas.mem String.eqb (senioridade r) (selected_seniorities s)
   && Pandas.mem String.eqb (contrato r) (selected_contract_types s)
   && Pandas.mem String.eqb (tamanho_empresa r) (selected_company_sizes s))%bool.

(** [l1] is [l2] with some elements removed, order kept. *)
Inductive subseq {A : Type} : list A -> list A -> Prop :=
| subseq_nil : subseq [] []
| subseq_skip : forall x l1 l2, subseq l1 l2 -> subseq l1 (x :: l2)
| subseq_keep : forall x l1 l2, subseq l1 l2 -> subseq (x :: l1) (x :: l2).

(** The two records of the example scenario, and a third one. *)
Definition row_ds : Row :=
  mkRow 2023 "Senior" "CLT" "Large" "Data Scientist" 120000 "Remote" "USA".
Definition row_da : Row :=
  mkRow 2023 "Junior" "CLT" "Small" "Data Analyst" 60000 "On-site" "BRA".
Definition row_de : Row :=
  mkRow 2024 "Senior" "PJ" "Medium" "Data Engineer" 90000 "Hybrid" "BRA".

Definition sample_df : DataFrame := [row_ds; row_da; row_de].

Definition senior_only : FilterSelection :=
  mkSelection [2023; 2024] ["Senior"] ["CLT"; "PJ"] ["Large"; "Medium"; "Small"].

(* ================================================================== *)
(** ** KPI metrics (lines 91-100) *)

Record Metrics : Type := mkMetrics {
  average_salary : Q;
  maximum_salary : Z;
  total_records : nat;
  most_frequent_role : string
}.

(** The four KPI values.  [None] stands for a run that does not produce
    four proper values: the [KeyError] of [mode()[0]] on an empty mode, or
    a NaN mean or maximum.  [summarize_total] shows that it never occurs. *)
Definition summarize (filtered : DataFrame) : option Metrics :=
  if negb (empty filtered) then
    match Pandas.mean (column usd filtered),
          Pandas.max (column usd filtered),
          nth_error (Pandas.mode String.eqb String.leb (column cargo filtered)) 0
    with
    | Some avg, Some mx, Some role =>
        Some {| average_salary := avg;
                maximum_salary := mx;
                total_records := shape0 filtered;
                most_frequent_role := role |}
    | _, _, _ => None
    end
  else
    Some {| average_salary := 0;
            maximum_salary := 0;
            total_records := 0;
            most_frequent_role := "" |}.

(** The four KPI values with the mean as the float64 that pandas
    computes; the other three are as in [summarize]. *)
Definition summarize64 (fsum : list Q -> Q) (filtered : DataFrame)
  : option Metrics :=
  if negb (empty filtered) then
    match Pandas.mean64 fsum (column usd filtered),
          Pandas.max (column usd filtered),
          nth_error (Pandas.mode String.eqb String.leb (column cargo filtered)) 0
    with
    | Some avg, Some mx, Some role =>
        Some {| average_salary := avg;
                maximum_salary := mx;
                total_records := shape0 filtered;
                most_frequent_role := role |}
    | _, _, _ => None
    end
  else
    Some {| average_salary := 0;
            maximum_salary := 0;
            total_records := 0;
            most_frequent_role := "" |}.

(* ================================================================== *)
(** ** Charts (lines 120-169) *)

(** What a chart column shows: a figure, or the warning of the [else]
    branch. *)
Inductive Slot (T : Type) : Type :=
| Plot (fig : T)
| Warning (msg : string).

Arguments Plot {T} fig.
Arguments Warning {T} msg.

(** The table behind the bar chart (lines 122-129). *)
Definition top_roles (quicksort : Pandas.Series -> Pandas.Series)
    (filtered : DataFrame) : list (string * Q) :=
  Pandas.reset_index
    (Pandas.sort_values quicksort true
       (Pandas.nlargest quicksort 10
          (Pandas.groupby_mean
             (map (fun r => (cargo r, usd r)) filtered)))).

Definition col_chart_1 (quicksort : Pandas.Series -> Pandas.Series)
    (filtered : DataFrame) : Slot (list (string * Q)) :=
  if negb (empty filtered) then Plot (top_roles quicksort filtered)
  else Warning "No data available to display the roles chart.".

(** The arguments handed to [px.histogram]: the observations and the bin
    budget.  The bin edges and counts are computed by the charting library
    when the figure is drawn; the script holds no binning code. *)
Record Histogram : Type := mkHistogram {
  hist_x : list Z;
  hist_nbins : nat;
  hist_title : string
}.

Definition salary_histogram (filtered : DataFrame) : Histogram :=
  {| hist_x := column usd filtered;
     hist_nbins := 30;
     hist_title := "Annual salary distribution" |}.

Definition col_chart_2 (filtered : DataFrame) : Slot Histogram :=
  if negb (empty filtered) then Plot (salary_histogram filtered)
  else Warning "No data available to display the salary distribution chart.".

(* ================================================================== *)
(** ** Notions used to state the properties *)

(** Number of rows of a role, and the salaries of a role, in a frame. *)
Definition role_count (role : string) (df : DataFrame) : nat :=
  List.length (filter (fun r => String.eqb role (cargo r)) df).

Definition role_salaries (role : string) (df : DataFrame) : list Z :=
  column usd (filter (fun r => String.eqb role (cargo r)) df).

(** Number of occurrences of a value in a column. *)
Definition occurrences {A : Type} (eqb : A -> A -> bool) (x : A)
    (s : list A) : nat :=
  List.length (filter (eqb x) s).

(** The accumulator that a hash-table pass holds for one key, followed
    through the observations. *)
Section Run.
Context {K X V : Type}.
Variable eqb : K -> K -> bool.
Variable init : X -> V.
Variable step : V -> X -> V.

Definition run (k : K) (obs : list (K * X)) (o : option V) : option V :=
    fold_left
      (fun o kx =>
         if eqb k (fst kx)
         then Some (match o with
                    | None => init (snd kx)
                    | Some v => step v (snd kx)
                    end)
         else o)
      obs o.
End Run.

(** The order in which a stable sort by [leb] leaves a list that was
    arranged by [T]: ascending for [leb], and by [T] where [leb] ties. *)
Definition stable_order {A : Type} (leb : A -> A -> bool)
    (T : A -> A -> Prop) (a b : A) : Prop :=
  leb a b = true /\ (leb b a = true -> T a b).

(** Orders on the entries of a series of means: by falling or by rising
    mean. *)
Definition desc_by_mean (a b : string * Q) : Prop := (snd b <= snd a)%Q.

Definition asc_by_mean (a b : string * Q) : Prop := (snd a <= snd b)%Q.

(** What is known of numpy's default sort: the series comes back with the
    same entries, in rising order of value.  Nothing is said of entries
    of equal value. *)
Definition sorts_by_value (quicksort : Pandas.Series -> Pandas.Series)
  : Prop :=
  forall s, Permutation (quicksort s) s /\
            StronglySorted asc_by_mean (quicksort s).

(** What is known of numpy's float sum: the sum of one entry is that
    entry; and when the entries are whole numbers that are not negative
    and add up to less than [2^53], every partial sum is a float64 and
    the sum is exact, in whatever order the entries are added. *)
Definition float_sum (fsum : list Q -> Q) : Prop :=
  (forall x, fsum [x] = x) /\
  (forall (zs : list Z) (l : list Q),
      Forall2 Qeq l (map inject_Z zs) ->
      (forall z, In z zs -> 0 <= z) ->
      Pandas.sum zs < 2 ^ 53 ->
      fsum l == inject_Z (Pandas.sum zs)).

(** A float sum: the entries are added one by one from the left, every
    sum rounded to float64.  For one or two entries every order of adding
    gives this result. *)
Definition fsum_loop (l : list Q) : Q :=
  match l with
  | [] => 0%Q
  | x :: l' => fold_left (fun acc y => Pandas.round64 (acc + y)) l' x
  end.

(** Strict order on strings. *)
Definition str_lt (a b : string) : Prop := String.compare a b = Lt.

(** The tie-break as the specification words it: scan the rows in frame
    order and take the role of the first row whose role has the largest
    number of rows. *)
Definition spec_first_most_frequent (df : DataFrame) : option string :=
  let largest := fold_left Nat.max (map (fun r => role_count (cargo r) df) df) 0%nat in
  option_map cargo
    (find (fun r => (role_count (cargo r) df =? largest)%nat) df).

(** Position of the first row of a role in a frame. *)
Fixpoint first_seen (role : string) (df : DataFrame) : nat :=
  match df with
  | [] => 0%nat
  | r :: df' => if String.eqb (cargo r) role then 0%nat else S (first_seen role df')
  end.

(** The tie-break of the role table as the specification words it: of two
    entries with equal means, the role met first in the frame comes
    first. *)
Definition spec_ties_first_seen (df : DataFrame) (out : list (string * Q)) : Prop :=
  forall i j a b,
    (i < j)%nat -> nth_error out i = Some a -> nth_error out j = Some b ->
    snd a == snd b ->
    (first_seen (fst a) df < first_seen (fst b) df)%nat.

(** One row, and two rows, with the largest 64-bit salary. *)
Definition huge_row : Row :=
  mkRow 2023 "Senior" "CLT" "Large" "Data Scientist" 9223372036854775807
    "Remote" "USA".

Definition huge_df : DataFrame := [huge_row].

Definition huge_pair_df : DataFrame := [huge_row; huge_row].

(** Two roles with the same count and the same mean, the later letter
    first. *)
Definition tie_df : DataFrame :=
  [ mkRow 2023 "Senior" "CLT" "Large" "ML Engineer" 100000 "Remote" "USA";
    mkRow 2023 "Senior" "CLT" "Large" "Data Analyst" 100000 "Remote" "USA" ].

(* ================================================================== *)
(** ** KPI text: the record count (line 107) *)

(** [str(n)] for a count: its decimal digits. *)
Definition decimal (n : nat) : string :=
  DecimalString.NilEmpty.string_of_uint (Nat.to_uint n).

(** The thousands grouping of the [,] format option, on the digits taken
    from the right: a comma after every three digits that are followed by
    a further digit. *)
Fixpoint group_thousands (rd : list ascii) : list ascii :=
  match rd with
  | a :: b :: c :: rest =>
      match rest with
      | [] => rd
      | _ :: _ => a :: b :: c :: ","%char :: group_thousands rest
      end
  | _ => rd
  end.

(** [f"{n:,}"]. *)
Definition format_thousands (n : nat) : string :=
  string_of_list_ascii
    (rev (group_thousands (rev (list_ascii_of_string (decimal n))))).

(** The text of the third KPI tile. *)
Definition total_records_text (m : Metrics) : string :=
  format_thousands (total_records m).

(** Reading a grouped number back: drop the commas, parse the digits. *)
Definition strip_commas (s : string) : string :=
  string_of_list_ascii
    (filter (fun c => negb (Ascii.eqb c ","%char)) (list_ascii_of_string s)).

Definition parse_decimal (s : string) : option nat :=
  option_map Nat.of_uint (DecimalString.NilEmpty.uint_of_string s).

(* ================================================================== *)
(** ** Work types and countries (lines 174-219) *)

(** The table behind the pie chart (lines 176-177); [reset_index] and the
    renaming of the two columns leave the pairs as they are. *)
Definition work_type_counts (filtered : DataFrame) : list (string * nat) :=
  Pandas.value_counts (column remoto filtered).

Definition col_chart_3 (filtered : DataFrame) : Slot (list (string * nat)) :=
  if negb (empty filtered) then Plot (work_type_counts filtered)
  else Warning "No data available to display the work types chart.".

(** The rows of the data scientists (line 195). *)
Definition data_scientists_df (filtered : DataFrame) : DataFrame :=
  Pandas.getitem_mask filtered
    (Pandas.eq_mask (column cargo filtered) "Data Scientist").

(** The table behind the map (lines 197-202). *)
Definition average_salary_by_country (filtered : DataFrame)
  : list (string * Q) :=
  Pandas.reset_index
    (Pandas.groupby_mean
       (map (fun r => (residencia_iso3 r, usd r))
          (data_scientists_df filtered))).

Definition col_chart_4 (filtered : DataFrame) : Slot (list (string * Q)) :=
  if negb (empty filtered) then Plot (average_salary_by_country filtered)
  else Warning "No data available to display the country chart.".

(* ================================================================== *)
(** ** The page *)

(** What one run of the script puts on the page for a loaded table and
    the four sidebar selections: the KPI values, the four chart columns
    and the detailed table (line 226). *)
Record Page : Type := mkPage {
  page_metrics : option Metrics;
  page_roles : Slot (list (string * Q));
  page_histogram : Slot Histogram;
  page_work_types : Slot (list (string * nat));
  page_countries : Slot (list (string * Q));
  page_table : DataFrame
}.

Definition render (quicksort : Pandas.Series -> Pandas.Series)
    (df : DataFrame) (s : FilterSelection) : Page :=
  let filtered := filtered_df df s in
  {| page_metrics := summarize filtered;
     page_roles := col_chart_1 quicksort filtered;
     page_histogram := col_chart_2 filtered;
     page_work_types := col_chart_3 filtered;
     page_countries := col_chart_4 filtered;
     page_table := filtered |}.

(** The page when no row passes the filter: the KPI values of the [else]
    branch, the four warnings and an empty table. *)
Definition empty_page : Page :=
  {| page_metrics :=
       Some {| average_salary := 0;
               maximum_salary := 0;
               total_records := 0;
               most_frequent_role := "" |};
     page_roles := Warning "No data available to display the roles chart.";
     page_histogram :=
       Warning "No data available to display the salary distribution chart.";
     page_work_types :=
       Warning "No data available to display the work types chart.";
     page_countries :=
       Warning "No data available to display the country chart.";
     page_table := [] |}.

(** Salaries of the data scientists of a country, and number of rows of a
    work type, in a frame. *)
Definition country_salaries (iso : string) (df : DataFrame) : list Z :=
  column usd
    (filter (fun r => (String.eqb (cargo r) "Data Scientist"
                       && String.eqb iso (residencia_iso3 r))%bool) df).

Definition work_type_count (w : string) (df : DataFrame) : nat :=
  List.length (filter (fun r => String.eqb w (remoto r)) df).

(* ================================================================== *)
(** * Properties *)

(** ** Membership tests *)

Section MemFacts.
Context {A : Type}.
Variable eqb : A -> A -> bool.
Hypothesis eqb_eq : forall x y, eqb x y = true <-> x = y.

Lemma mem_In (x : A) (values : list A) :
    Pandas.mem eqb x values = true <-> In x values.
  Proof.
    unfold Pandas.mem. rewrite existsb_exists. split.
    - intros [y [Hy Hxy]]. apply eqb_eq in Hxy. now subst.
    - intros H. exists x. split; [assumption | now apply eqb_eq].
  Qed.

Lemma unique_acc_In (s seen : list A) (x : A) :
    In x (Pandas.unique_acc eqb seen s) <-> In x s /\ ~ In x seen.
  Proof.
    revert seen. induction s as [|y s IH]; intros seen; simpl.
    - tauto.
    - destruct (Pandas.mem eqb y seen) eqn:Hmem.
      + apply mem_In in Hmem. rewrite IH. split.
        * tauto.
        * intros [[Hy | Hs] Hseen]; [subst; contradiction | tauto].
      + assert (Hny : ~ In y seen).
        { intros Hin. apply mem_In in Hin. congruence. }
        simpl. rewrite IH. simpl. split.
        * intros [Hy | [Hs Hseen]]; [subst; tauto | tauto].
        * intros [[Hy | Hs] Hseen]; [now left |].
          destruct (eqb y x) eqn:Hyx.
          -- apply eqb_eq in Hyx. now left.
          -- right. split; [assumption |].
             intros [Heq | Hin]; [| contradiction].
             apply eqb_eq in Heq. congruence.
  Qed.

Lemma unique_In (s : list A) (x : A) :
    In x (Pandas.unique eqb s) <-> In x s.
  Proof.
    unfold Pandas.unique. rewrite unique_acc_In. simpl. tauto.
  Qed.
End MemFacts.

Lemma mem_year (x : Z) (values : list Z) :
  Pandas.mem Z.eqb x values = true <-> In x values.
Proof. apply mem_In, Z.eqb_eq. Qed.

Lemma mem_str (x : string) (values : list string) :
  Pandas.mem String.eqb x values = true <-> In x values.
Proof. apply mem_In, String.eqb_eq. Qed.

(** ** The sort is a permutation *)

Section SortPerm.
Context {A : Type}.
Variable leb : A -> A -> bool.

Lemma insert_perm (x : A) (l : list A) :
    Permutation (insert leb x l) (x :: l).
  Proof.
    induction l as [|y l IH]; simpl.
    - apply Permutation_refl.
    - destruct (leb x y).
      + apply Permutation_refl.
      + eapply perm_trans; [apply perm_skip, IH | apply perm_swap].
  Qed.

Lemma sort_perm (l : list A) : Permutation (sort leb l) l.
  Proof.
    induction l as [|x l IH]; simpl.
    - constructor.
    - eapply perm_trans; [apply insert_perm | now apply perm_skip].
  Qed.

Lemma sort_In (l : list A) (x : A) : In x (sort leb l) <-> In x l.
  Proof.
    split; apply Permutation_in;
      [apply sort_perm | apply Permutation_sym, sort_perm].
  Qed.

Lemma sort_length (l : list A) : List.length (sort leb l) = List.length l.
  Proof. apply Permutation_length, sort_perm. Qed.
End SortPerm.

(** ** The mask and the row-wise predicate agree *)

Lemma isin_length {A : Type} (eqb : A -> A -> bool) (s values : list A) :
  List.length (Pandas.isin eqb s values) = List.length s.
Proof. unfold Pandas.isin. apply length_map. Qed.

Lemma mask_and_length (m1 m2 : list bool) :
  List.length m1 = List.length m2 ->
  List.length (Pandas.mask_and m1 m2) = List.length m1.
Proof.
  revert m2. induction m1 as [|b m1 IH]; intros [|b2 m2] H; simpl in *;
    try reflexivity; try discriminate.
  f_equal. apply IH. now injection H.
Qed.

Lemma selection_mask_length (df : DataFrame) (s : FilterSelection) :
  List.length (selection_mask df s) = List.length df.
Proof.
  unfold selection_mask, column.
  repeat (rewrite mask_and_length);
    repeat rewrite isin_length; repeat rewrite length_map; reflexivity.
Qed.

Lemma selection_mask_cons (r : Row) (df : DataFrame) (s : FilterSelection) :
  selection_mask (r :: df) s = selected s r :: selection_mask df s.
Proof. reflexivity. Qed.

Lemma filtered_df_filter (df : DataFrame) (s : FilterSelection) :
  filtered_df df s = filter (selected s) df.
Proof.
  unfold filtered_df. induction df as [|r df IH].
  - reflexivity.
  - rewrite selection_mask_cons. simpl. rewrite IH. reflexivity.
Qed.

Lemma selected_iff (s : FilterSelection) (r : Row) :
  selected s r = true <->
  In (ano r) (selected_years s) /\
  In (senioridade r) (selected_seniorities s) /\
  In (contrato r) (selected_contract_types s) /\
  In (tamanho_empresa r) (selected_company_sizes s).
Proof.
  unfold selected. rewrite !andb_true_iff.
  rewrite mem_year, !mem_str. tauto.
Qed.

(** ** Subsequences *)

Lemma subseq_refl {A : Type} (l : list A) : subseq l l.
Proof. induction l; constructor; assumption. Qed.

Lemma subseq_filter {A : Type} (f : A -> bool) (l : list A) :
  subseq (filter f l) l.
Proof.
  induction l as [|x l IH]; simpl.
  - constructor.
  - destruct (f x); constructor; assumption.
Qed.

Lemma subseq_filter_mono {A : Type} (f g : A -> bool) (l : list A) :
  (forall x, f x = true -> g x = true) ->
  subseq (filter f l) (filter g l).
Proof.
  intros Hfg. induction l as [|x l IH]; simpl.
  - constructor.
  - destruct (f x) eqn:Hf.
    + rewrite (Hfg x Hf). now constructor.
    + destruct (g x); [now constructor | assumption].
Qed.

Lemma filter_idem {A : Type} (f : A -> bool) (l : list A) :
  filter f (filter f l) = filter f l.
Proof.
  induction l as [|x l IH]; simpl.
  - reflexivity.
  - destruct (f x) eqn:Hf; simpl; [rewrite Hf, IH |]; auto.
Qed.

Lemma filter_all {A : Type} (f : A -> bool) (l : list A) :
  (forall x, In x l -> f x = true) -> filter f l = l.
Proof.
  induction l as [|x l IH]; simpl; intros H.
  - reflexivity.
  - rewrite (H x (or_introl eq_refl)). f_equal. apply IH. auto.
Qed.

Lemma filter_none {A : Type} (f : A -> bool) (l : list A) :
  (forall x, f x = false) -> filter f l = [].
Proof.
  intros H. induction l as [|x l IH]; simpl; [| rewrite H]; auto.
Qed.

(* ================================================================== *)
(** ** The filter *)

(** C1.  Soundness and completeness of the filter: a row of the filtered
    frame is a row of the frame whose year, seniority, contract type and
    company size each belong to the matching selection list; and a row of
    the frame that is not in the filtered frame fails at least one of the
    four membership tests. *)
Theorem filter_sound_complete (df : DataFrame) (s : FilterSelection) (r : Row) :
  (In r (filtered_df df s) ->
     In r df /\
     In (ano r) (selected_years s) /\
     In (senioridade r) (selected_seniorities s) /\
     In (contrato r) (selected_contract_types s) /\
     In (tamanho_empresa r) (selected_company_sizes s))
  /\
  (In r df -> ~ In r (filtered_df df s) ->
     ~ In (ano r) (selected_years s) \/
     ~ In (senioridade r) (selected_seniorities s) \/
     ~ In (contrato r) (selected_contract_types s) \/
     ~ In (tamanho_empresa r) (selected_company_sizes s)).
Proof.
  rewrite filtered_df_filter. split.
  - intros H. apply filter_In in H. destruct H as [Hin Hsel].
    split; [assumption | now apply selected_iff].
  - intros Hin Hout.
    assert (Hsel : selected s r = false).
    { destruct (selected s r) eqn:E; [| reflexivity].
      exfalso. apply Hout. apply filter_In. now split. }
    unfold selected in Hsel. rewrite !andb_false_iff in Hsel.
    destruct Hsel as [[[H | H] | H] | H].
    + left. intros Hc. apply mem_year in Hc. congruence.
    + right; left. intros Hc. apply mem_str in Hc. congruence.
    + right; right; left. intros Hc. apply mem_str in Hc. congruence.
    + right; right; right. intros Hc. apply mem_str in Hc. congruence.
Qed.

(** The default of every widget holds exactly the values of its column. *)
Lemma default_selection_full (df : DataFrame) :
  (forall y, In y (selected_years (default_selection df)) <->
             In y (column ano df)) /\
  (forall x, In x (selected_seniorities (default_selection df)) <->
             In x (column senioridade df)) /\
  (forall x, In x (selected_contract_types (default_selection df)) <->
             In x (column contrato df)) /\
  (forall x, In x (selected_company_sizes (default_selection df)) <->
             In x (column tamanho_empresa df)).
Proof.
  unfold default_selection; simpl.
  unfold available_years, available_seniorities, available_contract_types,
    available_company_sizes.
  repeat split; intros H.
  - apply sort_In in H. now apply (proj1 (unique_In _ Z.eqb_eq _ _)) in H.
  - apply sort_In. now apply (proj2 (unique_In _ Z.eqb_eq _ _)).
  - apply sort_In in H. now apply (proj1 (unique_In _ String.eqb_eq _ _)) in H.
  - apply sort_In. now apply (proj2 (unique_In _ String.eqb_eq _ _)).
  - apply sort_In in H. now apply (proj1 (unique_In _ String.eqb_eq _ _)) in H.
  - apply sort_In. now apply (proj2 (unique_In _ String.eqb_eq _ _)).
  - apply sort_In in H. now apply (proj1 (unique_In _ String.eqb_eq _ _)) in H.
  - apply sort_In. now apply (proj2 (unique_In _ String.eqb_eq _ _)).
Qed.

(** C2.  Identity of the full selection: when each of the four selection
    lists holds exactly the distinct values present in its column of the
    frame, the filtered frame is the whole frame. *)
Theorem filter_full_selection_identity (df : DataFrame) (s : FilterSelection) :
  (forall y, In y (selected_years s) <-> In y (column ano df)) ->
  (forall x, In x (selected_seniorities s) <-> In x (column senioridade df)) ->
  (forall x, In x (selected_contract_types s) <-> In x (column contrato df)) ->
  (forall x, In x (selected_company_sizes s) <->
             In x (column tamanho_empresa df)) ->
  filtered_df df s = df.
Proof.
  intros Hy Hs Hc Hz. rewrite filtered_df_filter.
  apply filter_all. intros r Hr. apply selected_iff.
  unfold column in *.
  rewrite Hy, Hs, Hc, Hz. repeat split; now apply in_map.
Qed.

(** The script's own default selection leaves the sample frame whole. *)
Lemma filter_full_selection_identity_witness :
  filtered_df sample_df (default_selection sample_df) = sample_df.
Proof.
  apply (filter_full_selection_identity sample_df (default_selection sample_df));
    intros x; vm_compute; tauto.
Defined.

(** C7.  An empty selection list selects nothing: when the list of any one
    of the four dimensions is empty, the filtered frame is empty. *)
Theorem filter_empty_selection (df : DataFrame) (s : FilterSelection) :
  selected_years s = [] \/
  selected_seniorities s = [] \/
  selected_contract_types s = [] \/
  selected_company_sizes s = [] ->
  filtered_df df s = [].
Proof.
  intros H. rewrite filtered_df_filter. apply filter_none. intros r.
  unfold selected.
  destruct H as [H | [H | [H | H]]]; rewrite H; simpl;
    rewrite ?andb_false_r; reflexivity.
Qed.

Lemma filter_empty_selection_witness :
  filtered_df sample_df (mkSelection [2023; 2024] [] ["CLT"] ["Large"]) = [].
Proof.
  apply (filter_empty_selection sample_df
           (mkSelection [2023; 2024] [] ["CLT"] ["Large"])).
  right; left. reflexivity.
Defined.

(** C8.  The filter is idempotent: filtering the filtered frame again with
    the same selection changes nothing. *)
Theorem filter_idempotent (df : DataFrame) (s : FilterSelection) :
  filtered_df (filtered_df df s) s = filtered_df df s.
Proof.
  rewrite !filtered_df_filter. apply filter_idem.
Qed.

(** C9.  The filter is monotone in the selection: when each list of [s1]
    is included in the matching list of [s2], the frame filtered by [s1]
    is a subsequence of the frame filtered by [s2], and both are
    subsequences of the frame, so both keep its row order. *)
Theorem filter_monotone (df : DataFrame) (s1 s2 : FilterSelection) :
  incl (selected_years s1) (selected_years s2) ->
  incl (selected_seniorities s1) (selected_seniorities s2) ->
  incl (selected_contract_types s1) (selected_contract_types s2) ->
  incl (selected_company_sizes s1) (selected_company_sizes s2) ->
  subseq (filtered_df df s1) (filtered_df df s2) /\
  subseq (filtered_df df s1) df /\
  subseq (filtered_df df s2) df.
Proof.
  intros Hy Hs Hc Hz. rewrite !filtered_df_filter.
  split; [| split; apply subseq_filter].
  apply subseq_filter_mono. intros r Hr.
  apply selected_iff in Hr. apply selected_iff.
  destruct Hr as (H1 & H2 & H3 & H4).
  repeat split; [apply Hy | apply Hs | apply Hc | apply Hz]; assumption.
Qed.

Lemma filter_monotone_witness :
  subseq (filtered_df sample_df senior_only)
         (filtered_df sample_df (default_selection sample_df)) /\
  subseq (filtered_df sample_df senior_only) sample_df /\
  subseq (filtered_df sample_df (default_selection sample_df)) sample_df.
Proof.
  apply (filter_monotone sample_df senior_only (default_selection sample_df));
    intros x Hx; vm_compute in Hx |- *; tauto.
Defined.

(* ================================================================== *)
(** ** Hash-table passes *)

Section TableFacts.
Context {K X V : Type}.
Variable eqb : K -> K -> bool.
Hypothesis eqb_eq : forall x y, eqb x y = true <-> x = y.

Lemma eqb_refl' (k : K) : eqb k k = true.
  Proof. now apply eqb_eq. Qed.

Lemma eqb_neq (k k' : K) : eqb k k' = false <-> k <> k'.
  Proof.
    split.
    - intros H Heq. apply eqb_eq in Heq. congruence.
    - intros H. destruct (eqb k k') eqn:E; [| reflexivity].
      apply eqb_eq in E. contradiction.
  Qed.

Lemma lookup_update (k k' : K) (f : option V -> V) (tbl : list (K * V)) :
    Pandas.lookup eqb k' (Pandas.update eqb k f tbl) =
    if eqb k' k then Some (f (Pandas.lookup eqb k tbl)) else Pandas.lookup eqb k' tbl.
  Proof.
    induction tbl as [|[k0 v0] tbl IH]; simpl.
    - destruct (eqb k' k); reflexivity.
    - destruct (eqb k k0) eqn:Hk; simpl.
      + apply eqb_eq in Hk. subst k0.
        destruct (eqb k' k); reflexivity.
      + rewrite IH. destruct (eqb k' k0) eqn:Hk0; [| reflexivity].
        apply eqb_eq in Hk0. subst k0.
        destruct (eqb k' k) eqn:Hk'; [| reflexivity].
        apply eqb_eq in Hk'. subst k'. rewrite eqb_refl' in Hk. discriminate.
  Qed.

Lemma lookup_In (k : K) (v : V) (tbl : list (K * V)) :
    Pandas.lookup eqb k tbl = Some v -> In (k, v) tbl.
  Proof.
    induction tbl as [|[k0 v0] tbl IH]; simpl; [discriminate |].
    destruct (eqb k k0) eqn:Hk.
    - apply eqb_eq in Hk. subst. intros [= ->]. now left.
    - intros H. right. now apply IH.
  Qed.

Lemma lookup_None (k : K) (tbl : list (K * V)) :
    Pandas.lookup eqb k tbl = None <-> ~ In k (map fst tbl).
  Proof.
    induction tbl as [|[k0 v0] tbl IH]; simpl.
    - tauto.
    - destruct (eqb k k0) eqn:Hk.
      + apply eqb_eq in Hk. subst. split; [discriminate | tauto].
      + apply eqb_neq in Hk. rewrite IH. split.
        * intros H [Heq | Hin]; [congruence | contradiction].
        * tauto.
  Qed.

Lemma In_lookup (k : K) (v : V) (tbl : list (K * V)) :
    NoDup (map fst tbl) -> In (k, v) tbl -> Pandas.lookup eqb k tbl = Some v.
  Proof.
    induction tbl as [|[k0 v0] tbl IH]; simpl; [tauto |].
    intros Hnd [Heq | Hin].
    - injection Heq as -> ->. now rewrite eqb_refl'.
    - inversion Hnd as [| ? ? Hnotin Hnd']; subst.
      destruct (eqb k k0) eqn:Hk.
      + apply eqb_eq in Hk. subst k0. exfalso. apply Hnotin.
        change k with (fst (k, v)). now apply in_map.
      + now apply IH.
  Qed.

Lemma update_keys (k : K) (f : option V -> V) (tbl : list (K * V)) :
    map fst (Pandas.update eqb k f tbl) =
    if Pandas.mem eqb k (map fst tbl) then map fst tbl
    else map fst tbl ++ [k].
  Proof.
    induction tbl as [|[k0 v0] tbl IH]; simpl.
    - reflexivity.
    - destruct (eqb k k0) eqn:Hk; simpl.
      + reflexivity.
      + rewrite IH. unfold Pandas.mem.
        destruct (existsb (eqb k) (map fst tbl)); reflexivity.
  Qed.

Lemma update_NoDup (k : K) (f : option V -> V) (tbl : list (K * V)) :
    NoDup (map fst tbl) -> NoDup (map fst (Pandas.update eqb k f tbl)).
  Proof.
    intros Hnd. rewrite update_keys.
    destruct (Pandas.mem eqb k (map fst tbl)) eqn:Hmem; [assumption |].
    assert (Hnotin : ~ In k (map fst tbl)).
    { intros Hin. apply (mem_In eqb eqb_eq) in Hin. congruence. }
    apply NoDup_rev in Hnd. rewrite <- (rev_involutive (_ ++ _)).
    apply NoDup_rev. rewrite rev_app_distr. simpl.
    constructor; [| assumption].
    intros Hin. apply in_rev in Hin. contradiction.
  Qed.

Variable init : X -> V.
Variable step : V -> X -> V.

Lemma fold_observe_NoDup (obs : list (K * X)) (tbl : list (K * V)) :
    NoDup (map fst tbl) ->
    NoDup (map fst (fold_left (Pandas.observe eqb init step) obs tbl)).
  Proof.
    revert tbl. induction obs as [|kx obs IH]; intros tbl Hnd; simpl.
    - assumption.
    - apply IH. unfold Pandas.observe. now apply update_NoDup.
  Qed.

Lemma aggregate_NoDup (obs : list (K * X)) :
    NoDup (map fst (Pandas.aggregate eqb init step obs)).
  Proof. apply fold_observe_NoDup. constructor. Qed.

Lemma lookup_fold_observe (k : K) (obs : list (K * X)) (tbl : list (K * V)) :
    Pandas.lookup eqb k (fold_left (Pandas.observe eqb init step) obs tbl) =
    run eqb init step k obs (Pandas.lookup eqb k tbl).
  Proof.
    revert tbl. induction obs as [|[k0 x0] obs IH]; intros tbl; simpl.
    - reflexivity.
    - rewrite IH. unfold Pandas.observe. simpl. rewrite lookup_update.
      destruct (eqb k k0) eqn:Hk; [| reflexivity].
      apply eqb_eq in Hk. subst k0. reflexivity.
  Qed.

Lemma lookup_aggregate (k : K) (obs : list (K * X)) :
    Pandas.lookup eqb k (Pandas.aggregate eqb init step obs) = run eqb init step k obs None.
  Proof. unfold Pandas.aggregate. now rewrite lookup_fold_observe. Qed.

Lemma aggregate_In (k : K) (v : V) (obs : list (K * X)) :
    In (k, v) (Pandas.aggregate eqb init step obs) <-> run eqb init step k obs None = Some v.
  Proof.
    rewrite <- lookup_aggregate. split.
    - apply In_lookup, aggregate_NoDup.
    - apply lookup_In.
  Qed.
End TableFacts.

(* ================================================================== *)
(** ** The sort is ordered and stable *)

Section SortStable.
Context {A : Type}.
Variable leb : A -> A -> bool.
Hypothesis leb_total : forall x y, leb x y = true \/ leb y x = true.
Hypothesis leb_trans :
    forall x y z, leb x y = true -> leb y z = true -> leb x z = true.
Variable T : A -> A -> Prop.

Lemma insert_stable (x : A) (l : list A) :
    StronglySorted (stable_order leb T) l ->
    Forall (T x) l ->
    StronglySorted (stable_order leb T) (insert leb x l).
  Proof.
    induction l as [|y l IH]; intros Hs HT; simpl.
    - repeat constructor.
    - apply StronglySorted_inv in Hs. destruct Hs as [Hs Hy].
      inversion HT as [| ? ? HTy HTl]; subst.
      destruct (leb x y) eqn:Hxy.
      + constructor.
        * constructor; assumption.
        * constructor.
          -- split; [assumption | intros _; assumption].
          -- rewrite Forall_forall in *. intros z Hz. split.
             ++ apply (leb_trans x y z); [assumption | apply (Hy z Hz)].
             ++ intros _. now apply HTl.
      + constructor.
        * now apply IH.
        * apply (Permutation_Forall (Permutation_sym (insert_perm leb x l))).
          constructor; [| assumption].
          split.
          -- destruct (leb_total y x) as [H | H]; [assumption | congruence].
          -- intros H. congruence.
  Qed.

Lemma sort_stable (l : list A) :
    StronglySorted T l -> StronglySorted (stable_order leb T) (sort leb l).
  Proof.
    induction l as [|x l IH]; intros Hs; simpl.
    - constructor.
    - apply StronglySorted_inv in Hs. destruct Hs as [Hs Hx].
      apply insert_stable; [now apply IH |].
      apply (Permutation_Forall (Permutation_sym (sort_perm leb l))).
      assumption.
  Qed.
End SortStable.

Lemma StronglySorted_any {A : Type} (l : list A) :
  StronglySorted (fun _ _ => True) l.
Proof.
  induction l; constructor; [assumption |].
  apply Forall_forall. auto.
Qed.

Lemma StronglySorted_weaken {A : Type} (R S : A -> A -> Prop) (l : list A) :
  (forall a b, R a b -> S a b) -> StronglySorted R l -> StronglySorted S l.
Proof.
  intros HRS. induction 1 as [| a l Hs IH Hall]; constructor.
  - assumption.
  - eapply Forall_impl; [| exact Hall]. auto.
Qed.

Lemma StronglySorted_app {A : Type} (R : A -> A -> Prop) (l1 l2 : list A) :
  StronglySorted R (l1 ++ l2) <->
  StronglySorted R l1 /\ StronglySorted R l2 /\
  (forall a b, In a l1 -> In b l2 -> R a b).
Proof.
  induction l1 as [|x l1 IH]; simpl.
  - split.
    + intros H. repeat split; [constructor | assumption | tauto].
    + tauto.
  - split.
    + intros H. apply StronglySorted_inv in H. destruct H as [H Hx].
      apply IH in H. destruct H as (H1 & H2 & H12).
      rewrite Forall_forall in Hx.
      repeat split.
      * constructor; [assumption |].
        apply Forall_forall. intros z Hz. apply Hx, in_or_app. now left.
      * assumption.
      * intros a b [-> | Ha] Hb.
        -- apply Hx, in_or_app. now right.
        -- now apply H12.
    + intros (H1 & H2 & H12).
      apply StronglySorted_inv in H1. destruct H1 as [H1 Hx].
      constructor.
      * apply IH. repeat split; auto.
      * rewrite Forall_forall in *. intros z Hz.
        apply in_app_or in Hz. destruct Hz; auto.
  Qed.

Lemma StronglySorted_rev {A : Type} (R : A -> A -> Prop) (l : list A) :
  StronglySorted R l -> StronglySorted (fun a b => R b a) (rev l).
Proof.
  induction 1 as [| x l Hs IH Hall]; simpl.
  - constructor.
  - apply StronglySorted_app. repeat split.
    + assumption.
    + repeat constructor.
    + intros a b Ha [<- | []]. rewrite Forall_forall in Hall.
      apply Hall. now apply in_rev.
Qed.

Lemma StronglySorted_firstn {A : Type} (R : A -> A -> Prop) (n : nat)
    (l : list A) :
  StronglySorted R l -> StronglySorted R (firstn n l).
Proof.
  intros H. rewrite <- (firstn_skipn n l) in H.
  now apply StronglySorted_app in H.
Qed.

(* ================================================================== *)
(** ** The order on strings *)

Lemma ascii_compare_refl (a : ascii) : Ascii.compare a a = Eq.
Proof. unfold Ascii.compare. apply N.compare_refl. Qed.

Lemma ascii_compare_lt_trans (a b c : ascii) :
  Ascii.compare a b = Lt -> Ascii.compare b c = Lt -> Ascii.compare a c = Lt.
Proof.
  unfold Ascii.compare. rewrite !N.compare_lt_iff. apply N.lt_trans.
Qed.

Lemma string_compare_refl (a : string) : String.compare a a = Eq.
Proof.
  induction a as [|c a IH]; simpl; [reflexivity |].
  now rewrite ascii_compare_refl.
Qed.

Lemma str_lt_trans (a b c : string) : str_lt a b -> str_lt b c -> str_lt a c.
Proof.
  unfold str_lt. revert b c.
  induction a as [|x a IH]; intros [|y b] [|z c]; simpl;
    try discriminate; try reflexivity.
  destruct (Ascii.compare x y) eqn:Hxy; try discriminate.
  - apply Ascii.compare_eq_iff in Hxy. subst y.
    destruct (Ascii.compare x z); try discriminate; auto.
    apply IH.
  - intros _. destruct (Ascii.compare y z) eqn:Hyz; try discriminate.
    + apply Ascii.compare_eq_iff in Hyz. subst z. now rewrite Hxy.
    + intros _. now rewrite (ascii_compare_lt_trans x y z).
Qed.

Lemma str_lt_irrefl (a : string) : ~ str_lt a a.
Proof. unfold str_lt. rewrite string_compare_refl. discriminate. Qed.

Lemma string_leb_iff (a b : string) :
  String.leb a b = true <-> a = b \/ str_lt a b.
Proof.
  unfold String.leb, str_lt. split.
  - destruct (String.compare a b) eqn:Hc; try discriminate.
    + left. now apply String.compare_eq_iff.
    + now right.
  - intros [-> | ->]; [now rewrite string_compare_refl | reflexivity].
Qed.

Lemma string_leb_trans (a b c : string) :
  String.leb a b = true -> String.leb b c = true -> String.leb a c = true.
Proof.
  rewrite !string_leb_iff. intros [-> | Hab] [-> | Hbc]; auto.
  right. eapply str_lt_trans; eassumption.
Qed.

Lemma str_lt_leb (a b : string) :
  str_lt a b <-> String.leb a b = true /\ a <> b.
Proof.
  rewrite string_leb_iff. split.
  - intros H. split; [now right |].
    intros ->. now apply str_lt_irrefl in H.
  - intros [[-> | H] Hne]; [contradiction | assumption].
Qed.

(* ================================================================== *)
(** ** Counting and the mode *)

Section ModeFacts.
Context {A : Type}.
Variable eqb : A -> A -> bool.
Hypothesis eqb_eq : forall x y, eqb x y = true <-> x = y.
Variable leb : A -> A -> bool.
Hypothesis leb_total : forall x y, leb x y = true \/ leb y x = true.
Hypothesis leb_trans :
    forall x y z, leb x y = true -> leb y z = true -> leb x z = true.

Lemma occurrences_pos (x : A) (s : list A) :
    (0 < occurrences eqb x s)%nat <-> In x s.
  Proof.
    unfold occurrences. induction s as [|y s IH]; simpl.
    - split; [lia | tauto].
    - destruct (eqb x y) eqn:Hxy; simpl.
      + apply eqb_eq in Hxy. split; [auto | lia].
      + rewrite IH. split; [tauto |].
        intros [Heq | Hin]; [| assumption].
        subst. rewrite (eqb_refl' eqb eqb_eq) in Hxy. discriminate.
  Qed.

Lemma run_count (k : A) (s : list A) (o : option nat) :
    run eqb (fun _ : unit => 1%nat) (fun n _ => S n) k
      (map (fun x => (x, tt)) s) o =
    match occurrences eqb k s with
    | O => o
    | S c => Some (S c + match o with None => 0 | Some n => n end)%nat
    end.
  Proof.
    unfold run, occurrences. revert o.
    induction s as [|x s IH]; intros o; simpl.
    - reflexivity.
    - rewrite IH. destruct (eqb k x); simpl.
      + destruct (List.length (filter (eqb k) s)), o; f_equal; lia.
      + reflexivity.
  Qed.

Lemma value_count_In (k : A) (n : nat) (s : list A) :
    In (k, n) (Pandas.value_count eqb s) <->
    n = occurrences eqb k s /\ (0 < n)%nat.
  Proof.
    unfold Pandas.value_count.
    rewrite (aggregate_In eqb eqb_eq), run_count.
    destruct (occurrences eqb k s).
    - split; [discriminate | lia].
    - split.
      + intros [= <-]. lia.
      + intros [-> _]. f_equal. lia.
  Qed.

Lemma fold_max_ge (l : list nat) (a : nat) :
    (a <= fold_left Nat.max l a)%nat /\
    (forall x, In x l -> x <= fold_left Nat.max l a)%nat.
  Proof.
    revert a. induction l as [|y l IH]; intros a; simpl.
    - split; [lia | tauto].
    - destruct (IH (Nat.max a y)) as [H1 H2]. split; [lia |].
      intros x [<- | Hx]; [lia | auto].
  Qed.

Lemma fold_max_attained (l : list nat) (a : nat) :
    fold_left Nat.max l a = a \/ In (fold_left Nat.max l a) l.
  Proof.
    revert a. induction l as [|y l IH]; intros a; simpl.
    - now left.
    - destruct (IH (Nat.max a y)) as [H | H]; [| now right; right].
      rewrite H. destruct (Nat.max_spec a y) as [[_ ->] | [_ ->]]; auto.
  Qed.

  (** The mode of a non-empty column starts with the least of the values
      that occur most often. *)
Lemma mode_head (s : list A) :
    s <> [] ->
    exists r rest,
      Pandas.mode eqb leb s = r :: rest /\
      In r s /\
      (forall y, occurrences eqb y s <= occurrences eqb r s)%nat /\
      (forall y, occurrences eqb y s = occurrences eqb r s -> leb r y = true).
  Proof.
    intros Hne. unfold Pandas.mode.
    set (vc := Pandas.value_count eqb s).
    set (M := Pandas.max_count vc).
    set (best := map fst (filter (fun kc => (snd kc =? M)%nat) vc)).
    assert (Hle : forall k n, In (k, n) vc -> (n <= M)%nat).
    { intros k n Hin. apply (fold_max_ge (map snd vc) 0).
      change n with (snd (k, n)). now apply in_map. }
    assert (Hbest : forall k, In k best <-> In (k, M) vc).
    { intros k. unfold best. rewrite in_map_iff. split.
      - intros [[k' n] [Hk Hin]]. simpl in Hk. subst k'.
        apply filter_In in Hin. destruct Hin as [Hin Hn]. simpl in Hn.
        apply Nat.eqb_eq in Hn. now subst.
      - intros Hin. exists (k, M). split; [reflexivity |].
        apply filter_In. split; [assumption |]. simpl. apply Nat.eqb_refl. }
    assert (Hex : exists k, In (k, M) vc).
    { destruct s as [|x s']; [contradiction |].
      assert (Hx : In (x, occurrences eqb x (x :: s')) vc).
      { apply value_count_In. split; [reflexivity |].
        apply occurrences_pos. now left. }
      destruct (fold_max_attained (map snd vc) 0) as [H0 | Hin].
      - apply Hle in Hx. fold (Pandas.max_count vc) in H0. fold M in H0.
        assert (0 < occurrences eqb x (x :: s'))%nat
          by (apply occurrences_pos; now left).
        lia.
      - apply in_map_iff in Hin. destruct Hin as [[k n] [Hn Hin]].
        simpl in Hn. exists k. fold (Pandas.max_count vc) in Hn.
        fold M in Hn. now subst n. }
    destruct Hex as [k0 Hk0]. apply Hbest in Hk0.
    pose proof (sort_stable leb leb_total leb_trans (fun _ _ => True) best
                  (StronglySorted_any best)) as Hsorted.
    destruct (sort leb best) as [|r rest] eqn:Hsort.
    { apply (sort_In leb) in Hk0. rewrite Hsort in Hk0. destruct Hk0. }
    exists r, rest. split; [reflexivity |].
    assert (Hr : In (r, M) vc).
    { apply Hbest. apply (sort_In leb). rewrite Hsort. now left. }
    apply value_count_In in Hr. destruct Hr as [HM HMpos].
    apply StronglySorted_inv in Hsorted. destruct Hsorted as [_ Hall].
    rewrite Forall_forall in Hall.
    repeat split.
    - apply occurrences_pos. lia.
    - intros y. rewrite <- HM.
      destruct (occurrences eqb y s) eqn:Hy; [lia |].
      apply (Hle y). apply value_count_In. split; lia.
    - intros y Hy. rewrite <- HM in Hy.
      assert (Hin : In y (r :: rest)).
      { rewrite <- Hsort. apply sort_In. apply Hbest.
        apply value_count_In. split; lia. }
      destruct Hin as [<- | Hin].
      + destruct (leb_total r r); assumption.
      + apply (Hall y Hin).
  Qed.
End ModeFacts.

(* ================================================================== *)
(** ** Sum, maximum and mean of a column *)

Lemma fold_add_shift (l : list Z) (a : Z) :
  fold_left Z.add l a = a + fold_left Z.add l 0.
Proof.
  revert a. induction l as [|x l IH]; intros a; simpl.
  - lia.
  - rewrite (IH (a + x)), (IH x). lia.
Qed.

Lemma sum_cons (x : Z) (l : list Z) : Pandas.sum (x :: l) = x + Pandas.sum l.
Proof. unfold Pandas.sum. simpl. apply fold_add_shift. Qed.

Lemma sum_nonneg (l : list Z) :
  (forall x, In x l -> 0 <= x) -> 0 <= Pandas.sum l.
Proof.
  induction l as [|x l IH]; intros H.
  - reflexivity.
  - rewrite sum_cons.
    assert (0 <= x) by (apply H; now left).
    assert (0 <= Pandas.sum l) by (apply IH; intros; apply H; now right).
    lia.
Qed.

Lemma sum_le_bound (l : list Z) (m : Z) :
  (forall x, In x l -> x <= m) ->
  Pandas.sum l <= m * Z.of_nat (List.length l).
Proof.
  induction l as [|x l IH]; intros H.
  - simpl. unfold Pandas.sum. simpl. lia.
  - rewrite sum_cons. cbn [List.length]. rewrite Nat2Z.inj_succ.
    assert (x <= m) by (apply H; now left).
    assert (Pandas.sum l <= m * Z.of_nat (List.length l))
      by (apply IH; intros; apply H; now right).
    lia.
Qed.

Lemma fold_zmax_ge (l : list Z) (a : Z) :
  a <= fold_left Z.max l a /\
  (forall x, In x l -> x <= fold_left Z.max l a).
Proof.
  revert a. induction l as [|y l IH]; intros a; simpl.
  - split; [lia | tauto].
  - destruct (IH (Z.max a y)) as [H1 H2]. split; [lia |].
    intros x [<- | Hx]; [lia | auto].
Qed.

Lemma max_upper_bound (l : list Z) (m : Z) :
  Pandas.max l = Some m -> forall x, In x l -> x <= m.
Proof.
  destruct l as [|a l]; simpl; [discriminate |].
  intros [= <-] x [Heq | Hx].
  - subst x. exact (proj1 (fold_zmax_ge l a)).
  - exact (proj2 (fold_zmax_ge l a) x Hx).
Qed.

Lemma role_count_occurrences (role : string) (df : DataFrame) :
  occurrences String.eqb role (column cargo df) = role_count role df.
Proof.
  unfold occurrences, role_count, column.
  induction df as [|r df IH]; simpl.
  - reflexivity.
  - destruct (String.eqb role (cargo r)); simpl; now rewrite IH.
Qed.

(* ================================================================== *)
(** ** KPI metrics *)

(** On a non-empty frame the four KPI values exist, and are the mean, the
    maximum, the number of rows and the head of the sorted mode. *)
Lemma summarize_nonempty (v : DataFrame) :
  v <> [] ->
  exists avg mx role rest,
    Pandas.mean (column usd v) = Some avg /\
    Pandas.max (column usd v) = Some mx /\
    Pandas.mode String.eqb String.leb (column cargo v) = role :: rest /\
    summarize v = Some (mkMetrics avg mx (List.length v) role).
Proof.
  intros Hne.
  destruct (mode_head String.eqb String.eqb_eq String.leb
              String.leb_total string_leb_trans (column cargo v))
    as (role & rest & Hmode & _).
  { destruct v; [contradiction | discriminate]. }
  destruct v as [|r v']; [contradiction |].
  unfold summarize. rewrite Hmode.
  cbn [empty negb column map Pandas.mean Pandas.max nth_error].
  eexists _, _, role, rest. repeat split; reflexivity.
Qed.

(** The KPI block always produces its four values. *)
Lemma summarize_total (v : DataFrame) : exists m, summarize v = Some m.
Proof.
  destruct v as [|r v'].
  - eexists. reflexivity.
  - destruct (summarize_nonempty (r :: v')) as (a & mx & ro & re & _ & _ & _ & H).
    + discriminate.
    + eexists. exact H.
Qed.

(** C3.  On the empty filtered frame the KPI block returns mean 0,
    maximum 0, count 0 and the empty string as most frequent role; it
    returns these values and does not fail. *)
Theorem summarize_empty :
  summarize [] =
  Some {| average_salary := 0;
          maximum_salary := 0;
          total_records := 0;
          most_frequent_role := "" |}.
Proof. reflexivity. Qed.

(** C4, as the code has it.  On a non-empty filtered frame the most
    frequent role is a role of the frame with the largest number of rows,
    and among the roles that reach this number it is the least one in
    string order: ties go to the alphabetically first role, whatever the
    order of the rows. *)
Theorem most_frequent_role_least_mode (v : DataFrame) :
  v <> [] ->
  exists m,
    summarize v = Some m /\
    In (most_frequent_role m) (column cargo v) /\
    (forall role, role_count role v <= role_count (most_frequent_role m) v)%nat /\
    (forall role,
        role_count role v = role_count (most_frequent_role m) v ->
        role = most_frequent_role m \/ str_lt (most_frequent_role m) role).
Proof.
  intros Hne.
  destruct (summarize_nonempty v Hne) as (avg & mx & role & rest & _ & _ & Hmode & Hsum).
  destruct (mode_head String.eqb String.eqb_eq String.leb
              String.leb_total string_leb_trans (column cargo v))
    as (role' & rest' & Hmode' & Hin & Hmax & Hleast).
  { destruct v; [contradiction | discriminate]. }
  rewrite Hmode in Hmode'. injection Hmode' as <- <-.
  exists (mkMetrics avg mx (List.length v) role). simpl.
  split; [assumption |]. split; [assumption |]. split.
  - intros r. rewrite <- !role_count_occurrences. apply Hmax.
  - intros r Hr. rewrite <- !role_count_occurrences in Hr.
    apply Hleast in Hr. apply string_leb_iff in Hr.
    destruct Hr as [-> | Hr]; auto.
Qed.

Lemma most_frequent_role_least_mode_witness :
  exists m,
    summarize tie_df = Some m /\
    In (most_frequent_role m) (column cargo tie_df) /\
    (forall role,
        role_count role tie_df <= role_count (most_frequent_role m) tie_df)%nat /\
    (forall role,
        role_count role tie_df = role_count (most_frequent_role m) tie_df ->
        role = most_frequent_role m \/ str_lt (most_frequent_role m) role).
Proof.
  apply (most_frequent_role_least_mode tie_df). discriminate.
Defined.

(** C4, as the specification words it, fails: in [tie_df] the two roles
    have one row each, "ML Engineer" is met first, and the KPI block
    answers "Data Analyst". *)
Lemma most_frequent_role_not_first_seen :
  exists m,
    tie_df <> [] /\
    summarize tie_df = Some m /\
    most_frequent_role m = "Data Analyst" /\
    spec_first_most_frequent tie_df = Some "ML Engineer" /\
    Some (most_frequent_role m) <> spec_first_most_frequent tie_df /\
    summarize (rev tie_df) = Some m.
Proof.
  eexists. split; [discriminate |]. split; [reflexivity |].
  repeat split. discriminate.
Qed.

(* ================================================================== *)
(** ** The float64 mean *)

Lemma fold_zmax_attained (l : list Z) (a : Z) :
  fold_left Z.max l a = a \/ In (fold_left Z.max l a) l.
Proof.
  revert a. induction l as [|y l IH]; intros a; simpl.
  - now left.
  - destruct (IH (Z.max a y)) as [H | H]; [| now right; right].
    rewrite H. destruct (Z.max_spec a y) as [[_ ->] | [_ ->]]; auto.
Qed.

Lemma max_attained (l : list Z) (m : Z) :
  Pandas.max l = Some m -> In m l.
Proof.
  destruct l as [|a l]; simpl; [discriminate |].
  intros [= <-]. destruct (fold_zmax_attained l a) as [-> | H]; auto.
Qed.


Lemma rne_between (y : Q) (N1 N2 : Z) :
  (inject_Z N1 <= y)%Q -> (y <= inject_Z N2)%Q ->
  N1 <= Pandas.rne y <= N2.
Proof.
  intros H1 H2. unfold Pandas.rne.
  pose proof (Qfloor_le y) as Hf1. pose proof (Qlt_floor y) as Hf2.
  set (f := Qfloor y) in *.
  assert (HN1 : N1 <= f).
  { assert (Hlt : (inject_Z N1 < inject_Z (f + 1))%Q)
      by (eapply Qle_lt_trans; eassumption).
    rewrite <- Zlt_Qlt in Hlt. lia. }
  assert (HN2 : f <= N2).
  { rewrite Zle_Qle. eapply Qle_trans; eassumption. }
  assert (Hup : (inject_Z f < y)%Q -> f + 1 <= N2).
  { intros Hlt.
    assert (Hlt2 : (inject_Z f < inject_Z N2)%Q)
      by (eapply Qlt_le_trans; eassumption).
    rewrite <- Zlt_Qlt in Hlt2. lia. }
  assert (Hhalf : (1 # 2 <= y - inject_Z f)%Q -> (inject_Z f < y)%Q).
  { intros Hh. apply Qlt_minus_iff.
    eapply Qlt_le_trans; [| exact Hh]. reflexivity. }
  destruct (Qcompare (y - inject_Z f) (1 # 2)) eqn:C.
  - apply Qeq_alt in C. destruct (Z.even f); [lia |].
    assert (f + 1 <= N2); [| lia].
    apply Hup, Hhalf. rewrite C. apply Qle_refl.
  - lia.
  - apply Qgt_alt in C.
    assert (f + 1 <= N2); [| lia].
    apply Hup, Hhalf. now apply Qlt_le_weak.
Qed.

Lemma pow2_pos (k : Z) : 0 <= k -> (0 < inject_Z (2 ^ k))%Q.
Proof.
  intros Hk. change 0%Q with (inject_Z 0). rewrite <- Zlt_Qlt.
  apply Z.pow_pos_nonneg; lia.
Qed.

Lemma scale2_up (q : Q) (k : Z) :
  0 <= k -> Pandas.scale2 q k = (q * inject_Z (2 ^ k))%Q.
Proof.
  intros Hk. unfold Pandas.scale2.
  destruct (0 <=? k) eqn:E; [reflexivity |].
  apply Z.leb_gt in E. lia.
Qed.

Lemma scale2_down (q : Q) (e : Z) :
  e <= 0 -> (Pandas.scale2 q e == q / inject_Z (2 ^ (- e)))%Q.
Proof.
  intros He. unfold Pandas.scale2.
  destruct (0 <=? e) eqn:E; [| reflexivity].
  apply Z.leb_le in E. assert (e = 0) by lia. subst e.
  change (2 ^ 0) with 1. change (2 ^ (- 0)) with 1.
  unfold Qdiv. change (/ inject_Z 1)%Q with 1%Q. reflexivity.
Qed.

Lemma ilog2_small (x : Q) :
  (0 < x)%Q -> (x < inject_Z (2 ^ 53))%Q -> Pandas.ilog2 x <= 52.
Proof.
  intros Hpos Hlt. unfold Pandas.ilog2.
  set (e0 := Z.log2 (Qnum x) - Z.log2 (Z.pos (Qden x))).
  destruct (Qle_bool (Pandas.scale2 1 e0) x) eqn:E.
  - apply Qle_bool_iff in E.
    destruct (Z_le_gt_dec e0 52) as [Hle | Hgt]; [assumption |].
    exfalso. rewrite scale2_up in E by lia. rewrite Qmult_1_l in E.
    assert (Hpow : 2 ^ 53 <= 2 ^ e0) by (apply Z.pow_le_mono_r; lia).
    rewrite Zle_Qle in Hpow.
    apply (Qlt_irrefl x).
    eapply Qlt_le_trans; [exact Hlt |].
    eapply Qle_trans; eassumption.
  - assert (Ha : 0 < Qnum x).
    { unfold Qlt in Hpos. simpl in Hpos. lia. }
    assert (Hx : Qnum x < 2 ^ 53 * Z.pos (Qden x)).
    { unfold Qlt in Hlt. simpl in Hlt. lia. }
    pose proof (Z.log2_nonneg (Z.pos (Qden x))) as Hb0.
    destruct (Z.log2_spec (Z.pos (Qden x))) as [_ Hb]; [reflexivity |].
    assert (Hbig : Qnum x < 2 ^ (54 + Z.log2 (Z.pos (Qden x)))).
    { replace (54 + Z.log2 (Z.pos (Qden x)))
        with (53 + Z.succ (Z.log2 (Z.pos (Qden x)))) by lia.
      rewrite Z.pow_add_r by lia.
      assert (0 < 2 ^ 53) by (apply Z.pow_pos_nonneg; lia).
      nia. }
    apply Z.log2_lt_pow2 in Hbig; [| assumption].
    unfold e0. lia.
Qed.

Lemma round64_pos_between (x : Q) (L M : Z) :
  (0 < x)%Q -> (x < inject_Z (2 ^ 53))%Q ->
  (inject_Z L <= x)%Q -> (x <= inject_Z M)%Q ->
  (inject_Z L <= Pandas.round64_pos x)%Q /\
  (Pandas.round64_pos x <= inject_Z M)%Q.
Proof.
  intros Hpos Hlt HL HM. unfold Pandas.round64_pos.
  pose proof (ilog2_small x Hpos Hlt) as Hlog.
  set (e := Z.max (Pandas.ilog2 x - 52) (-1074)).
  assert (He : e <= 0) by (unfold e; lia).
  rewrite (scale2_up x (- e)) by lia.
  set (P := 2 ^ (- e)).
  assert (HP : (0 < inject_Z P)%Q) by (apply pow2_pos; lia).
  assert (HP0 : (0 <= inject_Z P)%Q) by now apply Qlt_le_weak.
  destruct (rne_between (x * inject_Z P) (L * P) (M * P)) as [Hm1 Hm2].
  { rewrite inject_Z_mult. now apply Qmult_le_compat_r. }
  { rewrite inject_Z_mult. now apply Qmult_le_compat_r. }
  set (m := Pandas.rne (x * inject_Z P)) in *.
  rewrite (scale2_down (inject_Z m) e He). fold P. split.
  - apply Qle_shift_div_l; [assumption |].
    rewrite <- inject_Z_mult. now rewrite <- Zle_Qle.
  - apply Qle_shift_div_r; [assumption |].
    rewrite <- inject_Z_mult. now rewrite <- Zle_Qle.
Qed.

(** Rounding to float64 does not cross a whole number: below [2^53],
    a number between two whole numbers rounds between them. *)
Lemma round64_between (x : Q) (L M : Z) :
  (0 <= x)%Q -> (x < inject_Z (2 ^ 53))%Q ->
  (inject_Z L <= x)%Q -> (x <= inject_Z M)%Q ->
  (inject_Z L <= Pandas.round64 x)%Q /\ (Pandas.round64 x <= inject_Z M)%Q.
Proof.
  intros H0 Hlt HL HM. unfold Pandas.round64.
  destruct (Qcompare x 0) eqn:C.
  - apply Qeq_alt in C. rewrite C in HL, HM. now split.
  - apply Qlt_alt in C. exfalso. apply (Qlt_irrefl x).
    eapply Qlt_le_trans; eassumption.
  - apply Qgt_alt in C. now apply round64_pos_between.
Qed.

(** A whole number from 0 to below [2^53] is a float64. *)
Lemma round64_exact (x : Q) (z : Z) :
  0 <= z < 2 ^ 53 -> (x == inject_Z z)%Q ->
  (Pandas.round64 x == inject_Z z)%Q.
Proof.
  intros [Hz0 Hz] Hx.
  destruct (round64_between x z z) as [H1 H2].
  - rewrite Hx. change 0%Q with (inject_Z 0). now rewrite <- Zle_Qle.
  - rewrite Hx. now rewrite <- Zlt_Qlt.
  - rewrite Hx. apply Qle_refl.
  - rewrite Hx. apply Qle_refl.
  - now apply Qle_antisym.
Qed.

Lemma elem_le_sum (l : list Z) (z : Z) :
  (forall x, In x l -> 0 <= x) -> In z l -> z <= Pandas.sum l.
Proof.
  induction l as [|y l IH]; intros Hnn Hin; [destruct Hin |].
  rewrite sum_cons.
  assert (0 <= y) by (apply Hnn; now left).
  assert (0 <= Pandas.sum l) by (apply sum_nonneg; intros; apply Hnn; now right).
  destruct Hin as [-> | Hin]; [lia |].
  assert (z <= Pandas.sum l) by (apply IH; [intros; apply Hnn; now right | assumption]).
  lia.
Qed.

Lemma cast_exact (zs : list Z) :
  (forall z, In z zs -> 0 <= z < 2 ^ 53) ->
  Forall2 Qeq (map (fun z => Pandas.round64 (inject_Z z)) zs)
    (map inject_Z zs).
Proof.
  induction zs as [|z zs IH]; intros H; simpl; constructor.
  - apply round64_exact; [apply H; now left | reflexivity].
  - apply IH. intros; apply H; now right.
Qed.

Lemma fold_round_exact (zs : list Z) :
  forall (l : list Q) (acc : Q) (k : Z),
    Forall2 Qeq l (map inject_Z zs) ->
    (acc == inject_Z k)%Q -> 0 <= k ->
    (forall z, In z zs -> 0 <= z) ->
    k + Pandas.sum zs < 2 ^ 53 ->
    (fold_left (fun a y => Pandas.round64 (a + y)) l acc ==
     inject_Z (k + Pandas.sum zs))%Q.
Proof.
  induction zs as [|z zs IH]; intros l acc k HF Hacc Hk Hnn Hlt;
    simpl in HF; inversion HF as [| y ? l' ? Hy HF']; subst.
  - simpl. rewrite Hacc. unfold Pandas.sum. simpl.
    now rewrite Z.add_0_r.
  - assert (Hz : 0 <= z) by (apply Hnn; now left).
    assert (Hs : 0 <= Pandas.sum zs)
      by (apply sum_nonneg; intros; apply Hnn; now right).
    rewrite sum_cons in Hlt. cbn [fold_left].
    rewrite (IH l' (Pandas.round64 (acc + y)) (k + z)).
    + rewrite sum_cons. now rewrite Z.add_assoc.
    + assumption.
    + apply round64_exact; [lia |].
      rewrite Hacc, Hy. now rewrite inject_Z_plus.
    + lia.
    + intros; apply Hnn; now right.
    + lia.
Qed.

(** The left-to-right loop is a float sum in the sense of [float_sum]. *)
Lemma fsum_loop_float_sum : float_sum fsum_loop.
Proof.
  split.
  - intros x. reflexivity.
  - intros zs l HF Hnn Hlt.
    destruct zs as [|z zs]; simpl in HF;
      inversion HF as [| y ? l' ? Hy HF']; subst.
    + reflexivity.
    + unfold fsum_loop. rewrite sum_cons in *.
      apply fold_round_exact; try assumption.
      * apply Hnn. now left.
      * intros; apply Hnn; now right.
Qed.

(** C10, as the code has it.  On a non-empty filtered frame whose
    salaries are not negative and add up to less than [2^53], so that
    their float64 sum is exact, the KPI values are consistent: the
    float64 mean lies between 0 and the maximum, and the count is the
    number of rows of the frame. *)
Theorem summarize64_consistent (fsum : list Q -> Q) (v : DataFrame) :
  float_sum fsum ->
  v <> [] ->
  (forall r, In r v -> 0 <= usd r) ->
  Pandas.sum (column usd v) < 2 ^ 53 ->
  exists m,
    summarize64 fsum v = Some m /\
    (0 <= average_salary m)%Q /\
    (average_salary m <= inject_Z (maximum_salary m))%Q /\
    total_records m = List.length v.
Proof.
  intros [_ Hexact] Hne Hpos Hsmall.
  destruct (summarize_nonempty v Hne)
    as (avg & mx & role & rest & _ & Hmax & Hmode & _).
  assert (Hcol : forall x, In x (column usd v) -> 0 <= x).
  { intros x Hx. apply in_map_iff in Hx. destruct Hx as [r [<- Hr]]. auto. }
  pose proof (sum_le_bound _ mx (max_upper_bound _ _ Hmax)) as Hsm.
  pose proof (elem_le_sum _ mx Hcol (max_attained _ _ Hmax)) as Hmx.
  pose proof (Hexact (column usd v) _
                (cast_exact _ (fun z Hz =>
                   conj (Hcol z Hz)
                        (Z.le_lt_trans _ _ _ (elem_le_sum _ z Hcol Hz) Hsmall)))
                Hcol Hsmall) as Hsum.
  unfold summarize64. rewrite Hmax, Hmode.
  destruct v as [|r v']; [contradiction |].
  cbn [empty negb nth_error]. unfold Pandas.mean64.
  set (usds := column usd (r :: v')) in *.
  change (column usd (r :: v')) with usds.
  destruct usds as [|x l] eqn:Hc; [discriminate |].
  set (n := Z.of_nat (List.length (x :: l))) in *.
  assert (Hn : (0 < inject_Z n)%Q).
  { change 0%Q with (inject_Z 0). rewrite <- Zlt_Qlt.
    unfold n. cbn [List.length]. lia. }
  set (q := (fsum (map (fun z => Pandas.round64 (inject_Z z)) (x :: l))
             / inject_Z n)%Q).
  assert (Hq0 : (0 <= q)%Q).
  { unfold q. rewrite Hsum. apply Qle_shift_div_l; [assumption |].
    rewrite Qmult_0_l. change 0%Q with (inject_Z 0). rewrite <- Zle_Qle.
    now apply sum_nonneg. }
  assert (Hqm : (q <= inject_Z mx)%Q).
  { unfold q. rewrite Hsum. apply Qle_shift_div_r; [assumption |].
    rewrite <- inject_Z_mult, <- Zle_Qle. exact Hsm. }
  assert (Hq53 : (q < inject_Z (2 ^ 53))%Q).
  { eapply Qle_lt_trans; [exact Hqm |]. rewrite <- Zlt_Qlt. lia. }
  destruct (round64_between q 0 mx Hq0 Hq53 Hq0 Hqm) as [H1 H2].
  eexists. split; [reflexivity |]. cbn [average_salary maximum_salary total_records].
  split; [exact H1 |]. split; [exact H2 |].
  unfold shape0. reflexivity.
Qed.

Lemma summarize64_consistent_witness :
  exists m,
    summarize64 fsum_loop sample_df = Some m /\
    (0 <= average_salary m)%Q /\
    (average_salary m <= inject_Z (maximum_salary m))%Q /\
    total_records m = List.length sample_df.
Proof.
  apply (summarize64_consistent fsum_loop sample_df).
  - apply fsum_loop_float_sum.
  - discriminate.
  - intros r Hr. simpl in Hr.
    destruct Hr as [<- | [<- | [<- | []]]]; simpl; lia.
  - reflexivity.
Defined.

(** C10, as the specification words it, fails on large salaries.  On two
    rows with the salary [2^63 - 1] the float64 mean is [2^63], above the
    maximum [2^63 - 1]; and on one such row it is above the maximum in
    whatever way numpy sums. *)
Lemma mean64_above_maximum :
  (exists m,
     summarize64 fsum_loop huge_pair_df = Some m /\
     (forall r, In r huge_pair_df -> 0 <= usd r) /\
     (average_salary m == inject_Z (2 ^ 63))%Q /\
     maximum_salary m = 2 ^ 63 - 1 /\
     ~ (average_salary m <= inject_Z (maximum_salary m))%Q) /\
  ~ (exists fsum m,
       float_sum fsum /\
       summarize64 fsum huge_df = Some m /\
       (average_salary m <= inject_Z (maximum_salary m))%Q).
Proof.
  split.
  - eexists. split; [vm_compute; reflexivity |].
    split; [| split; [| split]].
    + intros r [<- | [<- | []]]; vm_compute; discriminate.
    + vm_compute. reflexivity.
    + reflexivity.
    + intros H. vm_compute in H. apply H. reflexivity.
  - intros (fsum & m & [Hone _] & Hs & Hle).
    unfold summarize64, huge_df, Pandas.mean64, column in Hs.
    cbn [empty negb map usd huge_row] in Hs.
    rewrite Hone in Hs. vm_compute in Hs.
    injection Hs as <-. vm_compute in Hle. apply Hle. reflexivity.
Qed.

(* ================================================================== *)
(** ** Grouped means *)

Lemma run_group (k : string) (obs : list (string * Z)) (o : option (Z * nat)) :
  run String.eqb (fun x => (x, 1%nat)) (fun v x => (fst v + x, S (snd v)))
    k obs o =
  let xs := map snd (filter (fun kx => String.eqb k (fst kx)) obs) in
  let base := match o with None => (0, 0%nat) | Some v => v end in
  match xs with
  | [] => o
  | _ :: _ => Some (fst base + Pandas.sum xs, (snd base + List.length xs)%nat)
  end.
Proof.
  unfold run. revert o. induction obs as [|[k0 x0] obs IH]; intros o.
  - reflexivity.
  - cbn [fold_left filter fst snd]. rewrite IH. cbv zeta.
    destruct (String.eqb k k0); [| reflexivity].
    cbn [map snd].
    destruct (map snd (filter (fun kx => String.eqb k (fst kx)) obs))
      as [|y ys].
    + destruct o as [[s n] |]; cbn [fst snd]; f_equal; f_equal;
        unfold Pandas.sum; simpl; lia.
    + rewrite (sum_cons x0 (y :: ys)).
      destruct o as [[s n] |]; cbn [fst snd List.length]; f_equal; f_equal; lia.
Qed.

Lemma filter_role_obs (k : string) (v : DataFrame) :
  map snd (filter (fun kx => String.eqb k (fst kx))
             (map (fun r => (cargo r, usd r)) v)) =
  role_salaries k v.
Proof.
  unfold role_salaries, column. induction v as [|r v IH]; simpl.
  - reflexivity.
  - destruct (String.eqb k (cargo r)); simpl; now rewrite IH.
Qed.

Lemma role_salaries_nonempty (k : string) (v : DataFrame) :
  role_salaries k v <> [] <-> In k (column cargo v).
Proof.
  unfold role_salaries, column. induction v as [|r v IH]; simpl.
  - tauto.
  - destruct (String.eqb k (cargo r)) eqn:Hk; simpl.
    + apply String.eqb_eq in Hk. split; [auto | discriminate].
    + apply String.eqb_neq in Hk. rewrite IH. split; [tauto |].
      intros [H | H]; [congruence | assumption].
Qed.

(** The entries of the grouped means: one per role of the frame, holding
    the mean of the salaries of that role. *)
Lemma groupby_mean_In (k : string) (m : Q) (v : DataFrame) :
  In (k, m) (Pandas.groupby_mean (map (fun r => (cargo r, usd r)) v)) <->
  In k (column cargo v) /\ Pandas.mean (role_salaries k v) = Some m.
Proof.
  unfold Pandas.groupby_mean. rewrite in_map_iff. split.
  - intros [[k' [s n]] [Heq Hin]]. cbn [fst snd] in Heq.
    injection Heq as -> <-.
    apply sort_In in Hin.
    apply (aggregate_In String.eqb String.eqb_eq) in Hin.
    rewrite run_group, filter_role_obs in Hin.
    destruct (role_salaries k v) as [|x xs] eqn:Hxs; [discriminate |].
    injection Hin as <- <-. split.
    + apply role_salaries_nonempty. rewrite Hxs. discriminate.
    + reflexivity.
  - intros [Hin Hmean].
    apply role_salaries_nonempty in Hin.
    destruct (role_salaries k v) as [|x xs] eqn:Hxs; [contradiction |].
    cbn [Pandas.mean] in Hmean. injection Hmean as <-.
    exists (k, (Pandas.sum (x :: xs), List.length (x :: xs))).
    split; [reflexivity |].
    apply sort_In.
    apply (aggregate_In String.eqb String.eqb_eq).
    rewrite run_group, filter_role_obs, Hxs. reflexivity.
Qed.

Lemma NoDup_StronglySorted_neq {A B : Type} (f : A -> B) (l : list A) :
  NoDup (map f l) -> StronglySorted (fun a b => f a <> f b) l.
Proof.
  induction l as [|x l IH]; simpl; intros Hnd.
  - constructor.
  - inversion Hnd as [| ? ? Hnotin Hnd']; subst.
    constructor; [now apply IH |].
    apply Forall_forall. intros y Hy Heq. apply Hnotin.
    rewrite Heq. now apply in_map.
Qed.

Lemma StronglySorted_map {A B : Type} (f : A -> B) (R : B -> B -> Prop)
    (l : list A) :
  StronglySorted (fun a b => R (f a) (f b)) l -> StronglySorted R (map f l).
Proof.
  induction 1 as [| x l Hs IH Hall]; simpl; constructor.
  - assumption.
  - apply Forall_forall. intros y Hy. apply in_map_iff in Hy.
    destruct Hy as [z [<- Hz]]. rewrite Forall_forall in Hall. auto.
Qed.

(** The grouped means are indexed by strictly increasing role names. *)
Lemma groupby_mean_sorted (obs : list (string * Z)) :
  StronglySorted (fun a b => str_lt (fst a) (fst b)) (Pandas.groupby_mean obs).
Proof.
  unfold Pandas.groupby_mean.
  set (tbl := Pandas.aggregate _ _ _ obs).
  apply StronglySorted_map. cbn [fst].
  assert (Hnd : NoDup (map fst tbl)) by apply aggregate_NoDup, String.eqb_eq.
  apply (NoDup_StronglySorted_neq fst) in Hnd.
  apply (sort_stable (fun a b => String.leb (fst a) (fst b))) in Hnd.
  - eapply StronglySorted_weaken; [| exact Hnd].
    intros a b [Hab Hba]. apply str_lt_leb. split; [assumption |].
    intros Heq. apply Hba; [| assumption].
    rewrite Heq. apply string_leb_iff. now left.
  - intros x y. apply String.leb_total.
  - intros x y z. apply string_leb_trans.
Qed.

Lemma unique_acc_NoDup {A : Type} (eqb : A -> A -> bool)
    (eqb_eq : forall x y, eqb x y = true <-> x = y) (s seen : list A) :
  NoDup (Pandas.unique_acc eqb seen s).
Proof.
  revert seen. induction s as [|x s IH]; intros seen; simpl.
  - constructor.
  - destruct (Pandas.mem eqb x seen); [apply IH |].
    constructor; [| apply IH].
    rewrite (unique_acc_In eqb eqb_eq). simpl. tauto.
Qed.

(** There are as many grouped means as distinct roles. *)
Lemma groupby_mean_length (v : DataFrame) :
  List.length (Pandas.groupby_mean (map (fun r => (cargo r, usd r)) v)) =
  List.length (Pandas.unique String.eqb (column cargo v)).
Proof.
  unfold Pandas.groupby_mean. rewrite length_map, sort_length.
  set (tbl := Pandas.aggregate _ _ _ _).
  rewrite <- (length_map fst tbl).
  apply Permutation_length, NoDup_Permutation.
  - apply aggregate_NoDup, String.eqb_eq.
  - apply unique_acc_NoDup, String.eqb_eq.
  - intros k. rewrite (unique_In String.eqb String.eqb_eq).
    rewrite <- (role_salaries_nonempty k v), <- filter_role_obs.
    pose proof (lookup_aggregate String.eqb String.eqb_eq
                  (fun x => (x, 1%nat)) (fun a x => (fst a + x, S (snd a)))
                  k (map (fun r => (cargo r, usd r)) v)) as Hl.
    fold tbl in Hl. rewrite run_group in Hl. cbv zeta in Hl.
    destruct (map snd _) as [|x xs].
    + apply (lookup_None String.eqb String.eqb_eq) in Hl. tauto.
    + apply (lookup_In String.eqb String.eqb_eq) in Hl. split.
      * discriminate.
      * intros _. apply (in_map fst) in Hl. exact Hl.
Qed.

(* ================================================================== *)
(** ** The salary histogram *)

(** On the empty frame the histogram column holds a warning: no figure
    is built, and so no bin of any kind. *)
Lemma salary_histogram_empty_no_bins :
  col_chart_2 [] =
    Warning "No data available to display the salary distribution chart." /\
  (forall h, col_chart_2 [] <> Plot h).
Proof.
  split; [reflexivity |]. intros h. discriminate.
Qed.

(* ================================================================== *)
(** * Further properties of the script *)

(** ** The options of the sidebar widgets *)

Lemma sort_strict {A : Type} (leb : A -> A -> bool) (lt : A -> A -> Prop)
    (l : list A) :
  (forall x y, leb x y = true \/ leb y x = true) ->
  (forall x y z, leb x y = true -> leb y z = true -> leb x z = true) ->
  (forall x y, leb x y = true -> x <> y -> lt x y) ->
  (forall x, leb x x = true) ->
  NoDup l -> StronglySorted lt (sort leb l).
Proof.
  intros Htot Htrans Hlt Hrefl Hnd.
  rewrite <- (map_id l) in Hnd.
  apply (NoDup_StronglySorted_neq (fun x => x)) in Hnd.
  apply (sort_stable leb Htot Htrans) in Hnd.
  eapply StronglySorted_weaken; [| exact Hnd].
  intros a b [Hab Hba]. apply Hlt; [assumption |].
  intros Heq. apply Hba; [| assumption]. subst. apply Hrefl.
Qed.

Lemma sort_strings_strict (l : list string) :
  NoDup l -> StronglySorted str_lt (sort String.leb l).
Proof.
  apply sort_strict.
  - apply String.leb_total.
  - apply string_leb_trans.
  - intros x y Hxy Hne. apply str_lt_leb. now split.
  - intros x. apply string_leb_iff. now left.
Qed.

Lemma sort_years_strict (l : list Z) :
  NoDup l -> StronglySorted Z.lt (sort Z.leb l).
Proof.
  apply sort_strict.
  - intros x y. rewrite !Z.leb_le. lia.
  - intros x y z. rewrite !Z.leb_le. lia.
  - intros x y Hxy Hne. apply Z.leb_le in Hxy. lia.
  - intros x. apply Z.leb_refl.
Qed.

(** The options offered by each of the four widgets are in strictly
    rising order, so no option is offered twice, and they are exactly the
    values found in the widget's column. *)
Theorem widget_options_sorted_distinct (df : DataFrame) :
  (StronglySorted Z.lt (available_years df) /\
   forall y, In y (available_years df) <-> In y (column ano df)) /\
  (StronglySorted str_lt (available_seniorities df) /\
   forall x, In x (available_seniorities df) <-> In x (column senioridade df)) /\
  (StronglySorted str_lt (available_contract_types df) /\
   forall x, In x (available_contract_types df) <-> In x (column contrato df)) /\
  (StronglySorted str_lt (available_company_sizes df) /\
   forall x, In x (available_company_sizes df) <->
             In x (column tamanho_empresa df)).
Proof.
  destruct (default_selection_full df) as (H1 & H2 & H3 & H4).
  repeat split; try (apply H1 || apply H2 || apply H3 || apply H4).
  - apply sort_years_strict, unique_acc_NoDup, Z.eqb_eq.
  - apply sort_strings_strict, unique_acc_NoDup, String.eqb_eq.
  - apply sort_strings_strict, unique_acc_NoDup, String.eqb_eq.
  - apply sort_strings_strict, unique_acc_NoDup, String.eqb_eq.
Qed.

(** ** More on the filter *)

Lemma filter_comm {A : Type} (f g : A -> bool) (l : list A) :
  filter f (filter g l) = filter g (filter f l).
Proof.
  induction l as [|x l IH]; simpl.
  - reflexivity.
  - destruct (g x) eqn:Hg, (f x) eqn:Hf; simpl;
      rewrite ?Hg, ?Hf, IH; reflexivity.
Qed.

(** Filtering by one selection and then by another gives the same frame
    in either order: the rows of the frame that pass both, in frame
    order. *)
Theorem filter_twice_commutes (df : DataFrame) (s1 s2 : FilterSelection) :
  filtered_df (filtered_df df s1) s2 = filtered_df (filtered_df df s2) s1 /\
  (forall r, In r (filtered_df (filtered_df df s1) s2) <->
             In r (filtered_df df s1) /\ In r (filtered_df df s2)) /\
  subseq (filtered_df (filtered_df df s1) s2) df.
Proof.
  rewrite !filtered_df_filter. split; [apply filter_comm |]. split.
  - intros r. rewrite !filter_In. tauto.
  - rewrite filter_comm. induction df as [|r df IH]; simpl.
    + constructor.
    + destruct (selected s2 r); simpl.
      * destruct (selected s1 r); constructor; assumption.
      * constructor. assumption.
Qed.

(** The mask built on lines 70-73 has one entry per row of the frame, as
    boolean indexing requires; the filtered frame has one row per [True]
    entry of the mask, hence never more rows than the frame. *)
Theorem mask_fits_frame (df : DataFrame) (s : FilterSelection) :
  List.length (selection_mask df s) = shape0 df /\
  shape0 (filtered_df df s) = count_occ bool_dec (selection_mask df s) true /\
  (shape0 (filtered_df df s) <= shape0 df)%nat.
Proof.
  split; [apply selection_mask_length |].
  unfold filtered_df, shape0.
  induction df as [|r df [IH1 IH2]].
  - split; [reflexivity | apply Nat.le_refl].
  - rewrite selection_mask_cons.
    destruct (selected s r); cbn [Pandas.getitem_mask List.length count_occ].
    + destruct (bool_dec true true) as [_ | H]; [| contradiction].
      split; [now rewrite IH1 | lia].
    + destruct (bool_dec false true) as [H | _]; [discriminate |].
      split; [assumption | lia].
Qed.

(** ** More on the KPI metrics *)

(** On a non-empty filtered frame the maximum salary shown is the salary
    of one of its rows, and no row has a higher salary. *)
Theorem maximum_salary_attained (v : DataFrame) :
  v <> [] ->
  exists m,
    summarize v = Some m /\
    (exists r, In r v /\ usd r = maximum_salary m) /\
    (forall r, In r v -> usd r <= maximum_salary m).
Proof.
  intros Hne.
  destruct (summarize_nonempty v Hne)
    as (avg & mx & role & rest & _ & Hmax & _ & Hsum).
  exists (mkMetrics avg mx (List.length v) role). cbn [maximum_salary].
  split; [assumption |]. split.
  - apply max_attained in Hmax. unfold column in Hmax.
    apply in_map_iff in Hmax. destruct Hmax as [r [Hr Hin]]. now exists r.
  - intros r Hr. apply (max_upper_bound _ _ Hmax).
    unfold column. now apply in_map.
Qed.

Lemma maximum_salary_attained_witness :
  exists m,
    summarize sample_df = Some m /\
    (exists r, In r sample_df /\ usd r = maximum_salary m) /\
    (forall r, In r sample_df -> usd r <= maximum_salary m).
Proof.
  apply (maximum_salary_attained sample_df). discriminate.
Defined.

(** ** The order of the rows does not matter *)

Lemma filter_perm {E : Type} (keep : E -> bool) (xs ys : list E)
    (Hperm : Permutation xs ys) :
  Permutation (filter keep xs) (filter keep ys).
Proof.
  induction Hperm as [| x l l' _ IH | x y l | l l' l'' _ IH1 _ IH2]; simpl.
  - constructor.
  - destruct (keep x); [now constructor | assumption].
  - destruct (keep x), (keep y); try apply Permutation_refl. apply perm_swap.
  - eapply perm_trans; eassumption.
Qed.

Lemma sum_perm (l l' : list Z) :
  Permutation l l' -> Pandas.sum l = Pandas.sum l'.
Proof.
  induction 1 as [| x l l' _ IH | x y l | l l' l'' _ IH1 _ IH2].
  - reflexivity.
  - rewrite !sum_cons. now rewrite IH.
  - rewrite !sum_cons. lia.
  - congruence.
Qed.

Lemma mean_perm (l l' : list Z) :
  Permutation l l' -> Pandas.mean l = Pandas.mean l'.
Proof.
  intros H. pose proof (Permutation_length H) as Hlen.
  pose proof (sum_perm _ _ H) as Hsum.
  destruct l as [|x l], l' as [|y l']; try discriminate; [reflexivity |].
  cbn [Pandas.mean]. now rewrite Hsum, Hlen.
Qed.

Lemma max_perm (l l' : list Z) :
  Permutation l l' -> Pandas.max l = Pandas.max l'.
Proof.
  intros H. pose proof (Permutation_length H) as Hlen.
  destruct l as [|x l], l' as [|y l']; try discriminate; [reflexivity |].
  destruct (Pandas.max (x :: l)) as [m |] eqn:Hm; [| discriminate].
  destruct (Pandas.max (y :: l')) as [m' |] eqn:Hm'; [| discriminate].
  f_equal. apply Z.le_antisymm.
  - apply (max_upper_bound _ _ Hm').
    apply (Permutation_in _ H). now apply max_attained.
  - apply (max_upper_bound _ _ Hm).
    apply (Permutation_in _ (Permutation_sym H)). now apply max_attained.
Qed.

Lemma occurrences_perm {A : Type} (eqb : A -> A -> bool) (x : A)
    (l l' : list A) :
  Permutation l l' -> occurrences eqb x l = occurrences eqb x l'.
Proof.
  intros H. unfold occurrences. apply Permutation_length.
  now apply filter_perm.
Qed.

(** A strictly sorted list is determined by its elements. *)
Lemma StronglySorted_unique {A : Type} (R : A -> A -> Prop) :
  (forall x, ~ R x x) ->
  (forall x y z, R x y -> R y z -> R x z) ->
  forall l1 l2,
    StronglySorted R l1 -> StronglySorted R l2 ->
    (forall x, In x l1 <-> In x l2) -> l1 = l2.
Proof.
  intros Hirr Htrans.
  induction l1 as [|x l1 IH]; intros l2 H1 H2 Hsame.
  - destruct l2 as [|y l2]; [reflexivity |].
    exfalso. apply (Hsame y). now left.
  - destruct l2 as [|y l2].
    { exfalso. apply (Hsame x). now left. }
    apply StronglySorted_inv in H1. destruct H1 as [H1 Hx].
    apply StronglySorted_inv in H2. destruct H2 as [H2 Hy].
    rewrite Forall_forall in Hx, Hy.
    assert (Hxy : x = y).
    { destruct (proj1 (Hsame x) (or_introl eq_refl)) as [Heq | Hin];
        [now symmetry |].
      destruct (proj2 (Hsame y) (or_introl eq_refl)) as [Heq | Hin'];
        [assumption |].
      exfalso. apply (Hirr x). apply (Htrans x y x); auto. }
    subst y. f_equal. apply IH; try assumption.
    intros z. split; intros Hz.
    + destruct (proj1 (Hsame z) (or_intror Hz)) as [Heq | Hin];
        [| assumption].
      subst z. exfalso. apply (Hirr x). now apply Hx.
    + destruct (proj2 (Hsame z) (or_intror Hz)) as [Heq | Hin];
        [| assumption].
      subst z. exfalso. apply (Hirr x). now apply Hy.
Qed.

Lemma NoDup_map_filter {K E : Type} (key : E -> K) (keep : E -> bool)
    (tbl : list E) (Hnd : NoDup (map key tbl)) :
  NoDup (map key (filter keep tbl)).
Proof.
  induction tbl as [|e tbl IH]; simpl in *.
  - constructor.
  - inversion Hnd as [| ? ? Hnotin Hnd']; subst.
    destruct (keep e); simpl; [| now apply IH].
    constructor; [| now apply IH].
    intros Hin. apply Hnotin. apply in_map_iff in Hin.
    destruct Hin as [y [Hy Hin]]. apply filter_In in Hin.
    rewrite <- Hy. apply in_map. tauto.
Qed.

(** The values of the mode: those of the column that no value outnumbers. *)
Lemma mode_In (s : list string) (r : string) :
  In r (Pandas.mode String.eqb String.leb s) <->
  In r s /\
  (forall y, occurrences String.eqb y s <= occurrences String.eqb r s)%nat.
Proof.
  unfold Pandas.mode. rewrite sort_In.
  set (vc := Pandas.value_count String.eqb s).
  set (M := Pandas.max_count vc).
  assert (Hle : forall k n, In (k, n) vc -> (n <= M)%nat).
  { intros k n Hin. apply (fold_max_ge (map snd vc) 0).
    change n with (snd (k, n)). now apply in_map. }
  assert (Hbest : In r (map fst (filter (fun kc => (snd kc =? M)%nat) vc))
                  <-> In (r, M) vc).
  { rewrite in_map_iff. split.
    - intros [[k' n] [Hk Hin]]. simpl in Hk. subst k'.
      apply filter_In in Hin. destruct Hin as [Hin Hn]. simpl in Hn.
      apply Nat.eqb_eq in Hn. now subst.
    - intros Hin. exists (r, M). split; [reflexivity |].
      apply filter_In. split; [assumption |]. simpl. apply Nat.eqb_refl. }
  rewrite Hbest. unfold vc at 1.
  rewrite (value_count_In String.eqb String.eqb_eq). split.
  - intros [HM Hpos]. split.
    + apply (occurrences_pos String.eqb String.eqb_eq). lia.
    + intros y. rewrite <- HM.
      destruct (occurrences String.eqb y s) eqn:Hy; [lia |].
      apply (Hle y). apply (value_count_In String.eqb String.eqb_eq).
      split; lia.
  - intros [Hin Hmax].
    apply (occurrences_pos String.eqb String.eqb_eq) in Hin.
    assert (Hr : In (r, occurrences String.eqb r s) vc).
    { apply (value_count_In String.eqb String.eqb_eq). split; lia. }
    apply Hle in Hr.
    destruct (fold_max_attained (map snd vc) 0) as [H0 | HinM].
    + fold (Pandas.max_count vc) in H0. fold M in H0. lia.
    + fold (Pandas.max_count vc) in HinM. fold M in HinM.
      apply in_map_iff in HinM. destruct HinM as [[k n] [Hn Hk]].
      simpl in Hn. subst n.
      apply (value_count_In String.eqb String.eqb_eq) in Hk.
      destruct Hk as [Hk _]. specialize (Hmax k). lia.
Qed.

Lemma mode_sorted (s : list string) :
  StronglySorted str_lt (Pandas.mode String.eqb String.leb s).
Proof.
  unfold Pandas.mode. apply sort_strings_strict.
  apply NoDup_map_filter. unfold Pandas.value_count.
  apply aggregate_NoDup, String.eqb_eq.
Qed.

Lemma mode_perm (s s' : list string) :
  Permutation s s' ->
  Pandas.mode String.eqb String.leb s = Pandas.mode String.eqb String.leb s'.
Proof.
  intros H.
  apply (StronglySorted_unique str_lt str_lt_irrefl str_lt_trans);
    try apply mode_sorted.
  intros r. rewrite !mode_In. split; intros [Hin Hmax]; split.
  - now apply (Permutation_in _ H).
  - intros y. rewrite <- !(occurrences_perm String.eqb _ _ _ H). apply Hmax.
  - now apply (Permutation_in _ (Permutation_sym H)).
  - intros y. rewrite !(occurrences_perm String.eqb _ _ _ H). apply Hmax.
Qed.



(** The entries of a grouped mean, for any key and value columns. *)
Lemma groupby_mean_entries (k : string) (m : Q) (obs : list (string * Z)) :
  In (k, m) (Pandas.groupby_mean obs) <->
  Pandas.mean (map snd (filter (fun kx => String.eqb k (fst kx)) obs)) =
  Some m.
Proof.
  unfold Pandas.groupby_mean. rewrite in_map_iff. split.
  - intros [[k' [s n]] [Heq Hin]]. cbn [fst snd] in Heq.
    injection Heq as -> <-.
    apply sort_In in Hin.
    apply (aggregate_In String.eqb String.eqb_eq) in Hin.
    rewrite run_group in Hin. cbv zeta in Hin.
    destruct (map snd _) as [|x xs]; [discriminate |].
    injection Hin as <- <-. reflexivity.
  - intros Hmean.
    destruct (map snd _) as [|x xs] eqn:Hxs; [discriminate |].
    cbn [Pandas.mean] in Hmean. injection Hmean as <-.
    exists (k, (Pandas.sum (x :: xs), List.length (x :: xs))).
    split; [reflexivity |].
    apply sort_In.
    apply (aggregate_In String.eqb String.eqb_eq).
    rewrite run_group. cbv zeta. rewrite Hxs. reflexivity.
Qed.

Lemma groupby_mean_perm (obs obs' : list (string * Z)) :
  Permutation obs obs' -> Pandas.groupby_mean obs = Pandas.groupby_mean obs'.
Proof.
  intros H.
  apply (StronglySorted_unique (fun a b => str_lt (fst a) (fst b)));
    try apply groupby_mean_sorted.
  - intros x. apply str_lt_irrefl.
  - intros x y z. apply str_lt_trans.
  - intros [k m]. rewrite !groupby_mean_entries.
    rewrite (mean_perm _ _ (Permutation_map snd (filter_perm _ _ _ H))).
    reflexivity.
Qed.



(** ** More on the role table *)

Lemma groupby_mean_keys_NoDup (obs : list (string * Z)) :
  NoDup (map fst (Pandas.groupby_mean obs)).
Proof.
  unfold Pandas.groupby_mean. rewrite map_map. cbn [fst].
  eapply Permutation_NoDup.
  - apply Permutation_map, Permutation_sym, sort_perm.
  - apply aggregate_NoDup, String.eqb_eq.
Qed.

Lemma NoDup_firstn {A : Type} (n : nat) (l : list A) :
  NoDup l -> NoDup (firstn n l).
Proof.
  intros H. rewrite <- (firstn_skipn n l) in H.
  now apply NoDup_app_remove_r in H.
Qed.

(** ** Sorting a series by value, and the largest entries *)

Lemma value_leb_total (a b : string * Q) :
  Pandas.value_leb a b = true \/ Pandas.value_leb b a = true.
Proof.
  unfold Pandas.value_leb. rewrite !Qle_bool_iff.
  destruct (Qlt_le_dec (snd b) (snd a)) as [H | H]; [right | left].
  - now apply Qlt_le_weak.
  - assumption.
Qed.

Lemma value_leb_trans (a b c : string * Q) :
  Pandas.value_leb a b = true -> Pandas.value_leb b c = true ->
  Pandas.value_leb a c = true.
Proof.
  unfold Pandas.value_leb. rewrite !Qle_bool_iff. apply Qle_trans.
Qed.

(** A stable sort by value is one of the sorts [sorts_by_value] allows. *)
Lemma insertion_sorts_by_value : sorts_by_value (sort Pandas.value_leb).
Proof.
  intros s. split; [apply sort_perm |].
  pose proof (sort_stable Pandas.value_leb value_leb_total value_leb_trans
                (fun _ _ => True) s (StronglySorted_any s)) as Hs.
  eapply StronglySorted_weaken; [| exact Hs].
  intros a b [Hab _]. unfold asc_by_mean.
  now apply Qle_bool_iff in Hab.
Qed.

Lemma neg_value_leb_iff (a b : string * Q) :
  Pandas.neg_value_leb a b = true <-> (snd b <= snd a)%Q.
Proof.
  unfold Pandas.neg_value_leb. rewrite Qle_bool_iff. split.
  - intros H. apply Qopp_le_compat in H. now rewrite !Qopp_involutive in H.
  - apply Qopp_le_compat.
Qed.

Lemma neg_value_leb_total (a b : string * Q) :
  Pandas.neg_value_leb a b = true \/ Pandas.neg_value_leb b a = true.
Proof.
  rewrite !neg_value_leb_iff.
  destruct (Qlt_le_dec (snd b) (snd a)) as [H | H]; [left | right].
  - now apply Qlt_le_weak.
  - assumption.
Qed.

Lemma neg_value_leb_trans (a b c : string * Q) :
  Pandas.neg_value_leb a b = true -> Pandas.neg_value_leb b c = true ->
  Pandas.neg_value_leb a c = true.
Proof.
  rewrite !neg_value_leb_iff. intros H1 H2. eapply Qle_trans; eassumption.
Qed.

Lemma mergesort_desc (s : Pandas.Series) :
  StronglySorted desc_by_mean (sort Pandas.neg_value_leb s).
Proof.
  pose proof (sort_stable Pandas.neg_value_leb neg_value_leb_total
                neg_value_leb_trans (fun _ _ => True) s
                (StronglySorted_any s)) as Hs.
  eapply StronglySorted_weaken; [| exact Hs].
  intros a b [Hab _]. now apply neg_value_leb_iff in Hab.
Qed.

Lemma in_firstn {A : Type} (n : nat) (l : list A) (x : A) :
  In x (firstn n l) -> In x l.
Proof.
  intros H. rewrite <- (firstn_skipn n l). apply in_or_app. now left.
Qed.

Lemma firstn_top {A : Type} (R : A -> A -> Prop) (n : nat) (l : list A)
    (x : A) :
  StronglySorted R l -> In x l ->
  In x (firstn n l) \/ (forall o, In o (firstn n l) -> R o x).
Proof.
  intros Hs Hin. rewrite <- (firstn_skipn n l) in Hs, Hin.
  apply StronglySorted_app in Hs. destruct Hs as (_ & _ & Hcross).
  apply in_app_or in Hin. destruct Hin as [Hin | Hin]; [now left | right].
  intros o Ho. now apply Hcross.
Qed.

Lemma filter_map_length {A B : Type} (f : A -> B) (p : B -> bool)
    (l : list A) :
  List.length (filter (fun x => p (f x)) l) =
  List.length (filter p (map f l)).
Proof.
  induction l as [|x l IH]; simpl; [reflexivity |].
  destruct (p (f x)); simpl; now rewrite IH.
Qed.

Lemma rising_sorted (arr : list Q) :
  StronglySorted Qle (sort Qle_bool arr).
Proof.
  assert (Htot : forall x y, Qle_bool x y = true \/ Qle_bool y x = true).
  { intros x y. rewrite !Qle_bool_iff.
    destruct (Qlt_le_dec y x) as [H | H]; [right | left]; auto.
    now apply Qlt_le_weak. }
  assert (Htrans : forall x y z, Qle_bool x y = true ->
                     Qle_bool y z = true -> Qle_bool x z = true).
  { intros x y z. rewrite !Qle_bool_iff. apply Qle_trans. }
  pose proof (sort_stable Qle_bool Htot Htrans (fun _ _ => True) arr
                (StronglySorted_any arr)) as Hs.
  eapply StronglySorted_weaken; [| exact Hs].
  intros a b [Hab _]. now apply Qle_bool_iff in Hab.
Qed.

(** At least [n] entries are not beyond the value of rank [n]. *)
Lemma kth_count (arr : list Q) (n : nat) :
  (0 < n)%nat -> (n <= List.length arr)%nat ->
  (n <= List.length
          (filter (fun x => Qle_bool x (Pandas.kth_smallest arr (n - 1)))
             arr))%nat.
Proof.
  intros Hn Hlen. unfold Pandas.kth_smallest.
  set (A := sort Qle_bool arr).
  set (kth := nth (n - 1) A 0%Q).
  rewrite <- (Permutation_length
                (filter_perm (fun x => Qle_bool x kth) _ _
                   (sort_perm Qle_bool arr))).
  fold A.
  assert (HlenA : (n - 1 < List.length A)%nat).
  { unfold A. rewrite sort_length. lia. }
  destruct (nth_split A 0%Q HlenA) as (l1 & l2 & HA & Hl1).
  fold kth in HA.
  pose proof (rising_sorted arr) as Hs. fold A in Hs. rewrite HA in Hs.
  apply StronglySorted_app in Hs. destruct Hs as (_ & _ & Hcross).
  rewrite HA, filter_app, length_app.
  rewrite (filter_all _ l1).
  - cbn [filter].
    assert (Hk : Qle_bool kth kth = true)
      by (apply Qle_bool_iff, Qle_refl).
    rewrite Hk. cbn [List.length]. lia.
  - intros x Hx. apply Qle_bool_iff. apply Hcross; [assumption | now left].
Qed.

Section AnyQuicksort.
Variable quicksort : Pandas.Series -> Pandas.Series.
Hypothesis quicksort_sorts : sorts_by_value quicksort.

Lemma sort_values_perm (ascending : bool) (s : Pandas.Series) :
  Permutation (Pandas.sort_values quicksort ascending s) s.
Proof.
  unfold Pandas.sort_values. destruct ascending.
  - apply quicksort_sorts.
  - eapply perm_trans; [apply Permutation_sym, Permutation_rev |].
    eapply perm_trans; [apply quicksort_sorts |].
    apply Permutation_sym, Permutation_rev.
Qed.

Lemma sort_values_asc_sorted (s : Pandas.Series) :
  StronglySorted asc_by_mean (Pandas.sort_values quicksort true s).
Proof. apply quicksort_sorts. Qed.

Lemma sort_values_desc_sorted (s : Pandas.Series) :
  StronglySorted desc_by_mean (Pandas.sort_values quicksort false s).
Proof.
  unfold Pandas.sort_values.
  apply (StronglySorted_rev asc_by_mean). apply quicksort_sorts.
Qed.

Lemma nlargest_sorted (n : nat) (s : Pandas.Series) :
  StronglySorted desc_by_mean (Pandas.nlargest quicksort n s).
Proof.
  unfold Pandas.nlargest.
  destruct (n =? 0)%nat; [constructor |].
  destruct (List.length s <=? n)%nat; apply StronglySorted_firstn.
  - apply sort_values_desc_sorted.
  - apply mergesort_desc.
Qed.

Lemma nlargest_incl (n : nat) (s : Pandas.Series) (e : string * Q) :
  In e (Pandas.nlargest quicksort n s) -> In e s.
Proof.
  unfold Pandas.nlargest.
  destruct (n =? 0)%nat; [intros [] |].
  destruct (List.length s <=? n)%nat; intros H; apply in_firstn in H.
  - now apply (Permutation_in _ (sort_values_perm false s)).
  - apply sort_In in H. apply filter_In in H. tauto.
Qed.

Lemma nlargest_keys_NoDup (n : nat) (s : Pandas.Series) :
  NoDup (map fst s) -> NoDup (map fst (Pandas.nlargest quicksort n s)).
Proof.
  intros Hnd. unfold Pandas.nlargest.
  destruct (n =? 0)%nat; [constructor |].
  destruct (List.length s <=? n)%nat;
    rewrite <- firstn_map; apply NoDup_firstn.
  - eapply Permutation_NoDup;
      [apply Permutation_map, Permutation_sym, sort_values_perm |].
    assumption.
  - eapply Permutation_NoDup;
      [apply Permutation_map, Permutation_sym, sort_perm |].
    now apply NoDup_map_filter.
Qed.

Lemma nlargest_length (n : nat) (s : Pandas.Series) :
  List.length (Pandas.nlargest quicksort n s) = Nat.min n (List.length s).
Proof.
  unfold Pandas.nlargest.
  destruct (n =? 0)%nat eqn:E0.
  { apply Nat.eqb_eq in E0. subst. reflexivity. }
  apply Nat.eqb_neq in E0.
  destruct (List.length s <=? n)%nat eqn:E; rewrite length_firstn.
  - now rewrite (Permutation_length (sort_values_perm false s)).
  - apply Nat.leb_gt in E. rewrite sort_length.
    pose proof (kth_count (map (fun e => (- snd e)%Q) s) n) as Hk.
    rewrite length_map in Hk.
    rewrite <- (filter_map_length (fun e : string * Q => (- snd e)%Q)
                  (fun x => Qle_bool x
                     (Pandas.kth_smallest
                        (map (fun e : string * Q => (- snd e)%Q) s) (n - 1))))
      in Hk.
    lia.
Qed.

(** An entry left out by [nlargest] is not above any entry kept. *)
Lemma nlargest_top (n : nat) (s : Pandas.Series) (e : string * Q) :
  In e s ->
  In e (Pandas.nlargest quicksort n s) \/
  (forall o, In o (Pandas.nlargest quicksort n s) -> (snd e <= snd o)%Q).
Proof.
  intros Hin. unfold Pandas.nlargest.
  destruct (n =? 0)%nat; [right; intros o [] |].
  destruct (List.length s <=? n)%nat.
  - apply (firstn_top desc_by_mean).
    + apply sort_values_desc_sorted.
    + now apply (Permutation_in _ (Permutation_sym (sort_values_perm false s))).
  - set (kth := Pandas.kth_smallest (map (fun e => (- snd e)%Q) s) (n - 1)).
    destruct (Qle_bool (- snd e) kth) eqn:Ek.
    + apply (firstn_top desc_by_mean).
      * apply mergesort_desc.
      * apply sort_In. apply filter_In. now split.
    + right. intros o Ho. apply in_firstn in Ho. apply sort_In in Ho.
      apply filter_In in Ho. destruct Ho as [_ Ho].
      apply Qle_bool_iff in Ho.
      assert (Hlt : (kth < - snd e)%Q).
      { apply Qnot_le_lt. intros Hle. apply Qle_bool_iff in Hle. congruence. }
      assert (Hoe : (- snd o <= - snd e)%Q).
      { apply Qlt_le_weak. eapply Qle_lt_trans; eassumption. }
      apply Qopp_le_compat in Hoe. now rewrite !Qopp_involutive in Hoe.
Qed.

(** When [n] covers the series, [nlargest] keeps every entry. *)
Lemma nlargest_all (n : nat) (s : Pandas.Series) :
  n <> 0%nat -> (List.length s <= n)%nat ->
  Permutation (Pandas.nlargest quicksort n s) s.
Proof.
  intros Hn Hlen. unfold Pandas.nlargest.
  apply Nat.eqb_neq in Hn. rewrite Hn.
  pose proof Hlen as Hleb. apply Nat.leb_le in Hleb. rewrite Hleb.
  rewrite firstn_all2.
  - apply sort_values_perm.
  - now rewrite (Permutation_length (sort_values_perm false s)).
Qed.
End AnyQuicksort.

(** ** The role table *)






(** ** Work types *)

Lemma value_counts_perm (s : list string) :
  Permutation (Pandas.value_counts s) (Pandas.value_count String.eqb s).
Proof.
  unfold Pandas.value_counts.
  eapply perm_trans; [apply Permutation_sym, Permutation_rev |].
  eapply perm_trans; [apply sort_perm |].
  apply Permutation_sym, Permutation_rev.
Qed.

Lemma work_type_occurrences (w : string) (v : DataFrame) :
  occurrences String.eqb w (column remoto v) = work_type_count w v.
Proof.
  unfold occurrences, work_type_count, column.
  induction v as [|r v IH]; simpl.
  - reflexivity.
  - destruct (String.eqb w (remoto r)); simpl; now rewrite IH.
Qed.

Lemma count_leb_total (a b : string * nat) :
  Pandas.count_leb a b = true \/ Pandas.count_leb b a = true.
Proof. unfold Pandas.count_leb. rewrite !Nat.leb_le. lia. Qed.

Lemma count_leb_trans (a b c : string * nat) :
  Pandas.count_leb a b = true -> Pandas.count_leb b c = true ->
  Pandas.count_leb a c = true.
Proof. unfold Pandas.count_leb. rewrite !Nat.leb_le. lia. Qed.

(** The work-type table is a complete frequency table: a work type is
    listed exactly when some row has it, once, with the number of rows
    that have it; and the entries come by falling count. *)
Theorem work_type_counts_exact (v : DataFrame) :
  (forall w n, In (w, n) (work_type_counts v) <->
               n = work_type_count w v /\ In w (column remoto v)) /\
  NoDup (map fst (work_type_counts v)) /\
  StronglySorted (fun a b => (snd b <= snd a)%nat) (work_type_counts v).
Proof.
  unfold work_type_counts.
  pose proof (value_counts_perm (column remoto v)) as Hperm.
  split; [| split].
  - intros w n. split.
    + intros Hin. apply (Permutation_in _ Hperm) in Hin.
      apply (value_count_In String.eqb String.eqb_eq) in Hin.
      destruct Hin as [Hn Hpos]. rewrite work_type_occurrences in Hn.
      split; [assumption |].
      apply (occurrences_pos String.eqb String.eqb_eq).
      rewrite work_type_occurrences. lia.
    + intros [Hn Hin]. apply (Permutation_in _ (Permutation_sym Hperm)).
      apply (value_count_In String.eqb String.eqb_eq).
      apply (occurrences_pos String.eqb String.eqb_eq) in Hin.
      rewrite work_type_occurrences in *. split; [assumption | lia].
  - eapply Permutation_NoDup;
      [apply Permutation_map, Permutation_sym, Hperm |].
    unfold Pandas.value_count. apply aggregate_NoDup, String.eqb_eq.
  - unfold Pandas.value_counts.
    pose proof (sort_stable Pandas.count_leb count_leb_total count_leb_trans
                  (fun _ _ => True) _
                  (StronglySorted_any
                     (rev (Pandas.value_count String.eqb (column remoto v)))))
      as Hs.
    apply StronglySorted_rev in Hs.
    eapply StronglySorted_weaken; [| exact Hs].
    intros a b [Hba _]. unfold Pandas.count_leb in Hba.
    now apply Nat.leb_le in Hba.
Qed.

Lemma count_total_update (k : string) (tbl : list (string * nat)) :
  list_sum (map snd
    (Pandas.update String.eqb k
       (fun o => match o with None => 1%nat | Some n => S n end) tbl)) =
  S (list_sum (map snd tbl)).
Proof.
  induction tbl as [|[k' n] tbl IH]; simpl.
  - reflexivity.
  - destruct (String.eqb k k'); simpl; [reflexivity |].
    rewrite IH. lia.
Qed.

Lemma count_total_fold (s : list string) (tbl : list (string * nat)) :
  list_sum (map snd
    (fold_left (Pandas.observe String.eqb (fun _ : unit => 1%nat)
                  (fun n _ => S n))
       (map (fun x => (x, tt)) s) tbl)) =
  (list_sum (map snd tbl) + List.length s)%nat.
Proof.
  revert tbl. induction s as [|x s IH]; intros tbl; simpl.
  - lia.
  - rewrite IH. unfold Pandas.observe. cbn [fst snd].
    rewrite count_total_update. lia.
Qed.

(** The counts of the work-type table add up to the number of rows of the
    filtered frame: every row is counted once. *)
Theorem work_type_counts_total (v : DataFrame) :
  list_sum (map snd (work_type_counts v)) = shape0 v.
Proof.
  unfold work_type_counts, shape0.
  rewrite (Permutation_list_sum
             (Permutation_map snd (value_counts_perm (column remoto v)))).
  unfold Pandas.value_count, Pandas.aggregate.
  rewrite count_total_fold. simpl. unfold column. apply length_map.
Qed.

(** ** Data scientists by country *)

Lemma data_scientists_df_filter (v : DataFrame) :
  data_scientists_df v =
  filter (fun r => String.eqb (cargo r) "Data Scientist") v.
Proof.
  unfold data_scientists_df, Pandas.eq_mask, column.
  induction v as [|r v IH]; simpl.
  - reflexivity.
  - destruct (String.eqb (cargo r) "Data Scientist"); now rewrite IH.
Qed.

Lemma country_obs (iso : string) (v : DataFrame) :
  map snd
    (filter (fun kx => String.eqb iso (fst kx))
       (map (fun r => (residencia_iso3 r, usd r)) (data_scientists_df v))) =
  country_salaries iso v.
Proof.
  rewrite data_scientists_df_filter. unfold country_salaries, column.
  induction v as [|r v IH]; simpl.
  - reflexivity.
  - destruct (String.eqb (cargo r) "Data Scientist"); simpl; [| assumption].
    destruct (String.eqb iso (residencia_iso3 r)); simpl; now rewrite IH.
Qed.

Lemma country_salaries_nonempty (iso : string) (v : DataFrame) :
  country_salaries iso v <> [] <->
  exists r, In r v /\ cargo r = "Data Scientist" /\ residencia_iso3 r = iso.
Proof.
  unfold country_salaries, column. split.
  - intros H.
    destruct (filter _ v) as [|r l] eqn:Hf; [contradiction |].
    assert (Hin : In r (filter
              (fun r => (String.eqb (cargo r) "Data Scientist"
                         && String.eqb iso (residencia_iso3 r))%bool) v))
      by (rewrite Hf; now left).
    apply filter_In in Hin. destruct Hin as [Hin Hb].
    apply andb_true_iff in Hb. destruct Hb as [Hc Hi].
    apply String.eqb_eq in Hc, Hi. exists r. auto.
  - intros (r & Hin & Hc & Hi) Hnil.
    assert (Hf : In r (filter
              (fun r => (String.eqb (cargo r) "Data Scientist"
                         && String.eqb iso (residencia_iso3 r))%bool) v)).
    { apply filter_In. split; [assumption |].
      apply andb_true_iff. split; apply String.eqb_eq; auto. }
    apply (in_map usd) in Hf. rewrite Hnil in Hf. destruct Hf.
Qed.

Lemma country_table_entry (iso : string) (m : Q) (v : DataFrame) :
  In (iso, m) (average_salary_by_country v) <->
  Pandas.mean (country_salaries iso v) = Some m.
Proof.
  unfold average_salary_by_country, Pandas.reset_index.
  rewrite groupby_mean_entries. now rewrite country_obs.
Qed.

Lemma country_table_listed (iso : string) (v : DataFrame) :
  (exists m, In (iso, m) (average_salary_by_country v)) <->
  exists r, In r v /\ cargo r = "Data Scientist" /\ residencia_iso3 r = iso.
Proof.
  rewrite <- country_salaries_nonempty. split.
  - intros [m Hm]. apply country_table_entry in Hm. intros Hnil.
    rewrite Hnil in Hm. discriminate.
  - intros Hne. destruct (Pandas.mean (country_salaries iso v)) as [m |] eqn:E.
    + exists m. now apply country_table_entry.
    + destruct (country_salaries iso v); [contradiction | discriminate].
Qed.


(** A filtered frame without data scientists gives an empty country
    table, and only such a frame does; when it has rows the map is still
    drawn, over that empty table, and no warning is shown. *)
Theorem average_salary_by_country_empty (v : DataFrame) :
  (average_salary_by_country v = [] <->
   forall r, In r v -> cargo r <> "Data Scientist") /\
  (v <> [] -> (forall r, In r v -> cargo r <> "Data Scientist") ->
   col_chart_4 v = Plot []).
Proof.
  assert (Hnone : (forall r, In r v -> cargo r <> "Data Scientist") ->
                  average_salary_by_country v = []).
  { intros H. unfold average_salary_by_country.
    rewrite data_scientists_df_filter.
    assert (Hf : filter (fun r => String.eqb (cargo r) "Data Scientist") v = []).
    { induction v as [|r v IH]; [reflexivity |]. simpl.
      destruct (String.eqb (cargo r) "Data Scientist") eqn:E.
      - apply String.eqb_eq in E. exfalso. apply (H r); [now left | assumption].
      - apply IH. intros r' Hr'. apply H. now right. }
    rewrite Hf. reflexivity. }
  split; [split; [| exact Hnone] |].
  - intros Hnil r Hin Hc.
    destruct (proj2 (country_table_listed (residencia_iso3 r) v)) as [m Hm].
    + exists r. auto.
    + rewrite Hnil in Hm. destruct Hm.
  - intros Hne H. unfold col_chart_4. rewrite (Hnone H).
    destruct v; [contradiction | reflexivity].
Qed.

(** ** The page as a whole *)

(** KPI values and charts switch together.  When no row passes the filter
    the page is [empty_page]: zero KPI values, a warning in each of the
    four chart columns, an empty table.  When some row passes, the KPI
    values count the rows of the table and each of the four chart columns
    holds its figure. *)
Theorem render_all_or_nothing (quicksort : Pandas.Series -> Pandas.Series)
    (df : DataFrame) (s : FilterSelection) :
  (filtered_df df s = [] -> render quicksort df s = empty_page) /\
  (filtered_df df s <> [] ->
   exists m,
     page_metrics (render quicksort df s) = Some m /\
     total_records m = List.length (page_table (render quicksort df s)) /\
     page_roles (render quicksort df s) = Plot (top_roles quicksort (filtered_df df s)) /\
     page_histogram (render quicksort df s) =
       Plot (salary_histogram (filtered_df df s)) /\
     page_work_types (render quicksort df s) =
       Plot (work_type_counts (filtered_df df s)) /\
     page_countries (render quicksort df s) =
       Plot (average_salary_by_country (filtered_df df s))).
Proof.
  unfold render. split.
  - intros ->. reflexivity.
  - intros Hne.
    destruct (summarize_nonempty _ Hne)
      as (avg & mx & role & rest & _ & _ & _ & Hsum).
    exists (mkMetrics avg mx (List.length (filtered_df df s)) role).
    cbn [page_metrics page_roles page_histogram page_work_types
         page_countries page_table total_records].
    split; [assumption |]. split; [reflexivity |].
    unfold col_chart_1, col_chart_2, col_chart_3, col_chart_4.
    destruct (filtered_df df s); [contradiction |]. repeat split.
Qed.

(** Clearing any one of the four widgets empties the page: with an empty
    selection list in any dimension the page is [empty_page]. *)
Theorem render_empty_selection (quicksort : Pandas.Series -> Pandas.Series)
    (df : DataFrame) (s : FilterSelection) :
  selected_years s = [] \/
  selected_seniorities s = [] \/
  selected_contract_types s = [] \/
  selected_company_sizes s = [] ->
  render quicksort df s = empty_page.
Proof.
  intros H.
  assert (Hf : filtered_df df s = []).
  { rewrite filtered_df_filter. apply filter_none. intros r.
    unfold selected.
    destruct H as [H | [H | [H | H]]]; rewrite H; simpl;
      rewrite ?andb_false_r; reflexivity. }
  unfold render. rewrite Hf. reflexivity.
Qed.

Lemma render_empty_selection_witness :
  render (sort Pandas.value_leb) sample_df
    (mkSelection [2023] ["Senior"] [] ["Large"]) = empty_page.
Proof.
  apply (render_empty_selection (sort Pandas.value_leb) sample_df
           (mkSelection [2023] ["Senior"] [] ["Large"])).
  right; right; left. reflexivity.
Defined.

(** ** The record count as text *)

Lemma group_thousands_small (rd : list ascii) :
  (List.length rd <= 3)%nat -> group_thousands rd = rd.
Proof.
  destruct rd as [|a [|b [|c [|d rest]]]]; simpl; intros H;
    try reflexivity; lia.
Qed.

Lemma group_thousands_step (a b c d : ascii) (rest : list ascii) :
  group_thousands (a :: b :: c :: d :: rest) =
  a :: b :: c :: ","%char :: group_thousands (d :: rest).
Proof. reflexivity. Qed.

(** Induction along the groups of three. *)
Lemma groups_ind (P : list ascii -> Prop) :
  (forall rd, (List.length rd <= 3)%nat -> P rd) ->
  (forall a b c d rest, P (d :: rest) -> P (a :: b :: c :: d :: rest)) ->
  forall rd, P rd.
Proof.
  intros Hsmall Hstep rd.
  assert (H : forall n rd, (List.length rd <= n)%nat -> P rd).
  { induction n as [|n IH]; intros l Hl.
    - apply Hsmall. lia.
    - destruct l as [|a [|b [|c [|d rest]]]];
        try (apply Hsmall; simpl; lia).
      apply Hstep. apply IH. simpl in Hl |- *. lia. }
  apply (H (List.length rd)). apply Nat.le_refl.
Qed.

Lemma digits_no_comma (d : Decimal.uint) :
  Forall (fun c => Ascii.eqb c ","%char = false)
    (list_ascii_of_string (DecimalString.NilEmpty.string_of_uint d)).
Proof.
  induction d; simpl; constructor; try reflexivity; assumption.
Qed.

Lemma group_thousands_strip (rd : list ascii) :
  Forall (fun c => Ascii.eqb c ","%char = false) rd ->
  filter (fun c => negb (Ascii.eqb c ","%char)) (group_thousands rd) = rd.
Proof.
  pattern rd. apply groups_ind; clear rd.
  - intros rd Hlen Hall. rewrite group_thousands_small by assumption.
    apply filter_all. rewrite Forall_forall in Hall.
    intros x Hx. now rewrite (Hall x Hx).
  - intros a b c d rest IH Hall. rewrite group_thousands_step.
    inversion Hall as [| ? ? Ha Hall1]; subst.
    inversion Hall1 as [| ? ? Hb Hall2]; subst.
    inversion Hall2 as [| ? ? Hc Hall3]; subst.
    cbn [filter]. rewrite Ha, Hb, Hc. cbn [negb].
    change (Ascii.eqb ","%char ","%char) with true. cbn [negb].
    now rewrite (IH Hall3).
Qed.

(** The text of the record count reads back as the count: without its
    commas it is the decimal writing of the number of records. *)
Theorem format_thousands_round_trip (n : nat) :
  strip_commas (format_thousands n) = decimal n /\
  parse_decimal (strip_commas (format_thousands n)) = Some n.
Proof.
  assert (Hstrip : strip_commas (format_thousands n) = decimal n).
  { unfold strip_commas, format_thousands.
    rewrite list_ascii_of_string_of_list_ascii, filter_rev.
    rewrite group_thousands_strip.
    - now rewrite rev_involutive, string_of_list_ascii_of_string.
    - apply Forall_rev. apply digits_no_comma. }
  split; [assumption |].
  rewrite Hstrip. unfold parse_decimal, decimal.
  rewrite DecimalString.NilEmpty.usu. simpl.
  now rewrite DecimalNat.Unsigned.of_to.
Qed.

Lemma group_thousands_commas (rd : list ascii) :
  Forall (fun c => Ascii.eqb c ","%char = false) rd ->
  forall j c, nth_error (group_thousands rd) j = Some c ->
    (c = ","%char <-> j mod 4 = 3)%nat.
Proof.
  pattern rd. apply groups_ind; clear rd.
  - intros rd Hlen Hall j c Hj.
    rewrite group_thousands_small in Hj by assumption.
    assert (Hlt : (j < 3)%nat).
    { assert (j < List.length rd)%nat
        by (apply nth_error_Some; congruence). lia. }
    apply nth_error_In in Hj. rewrite Forall_forall in Hall.
    specialize (Hall c Hj). split.
    + intros ->. discriminate.
    + intros Hmod. rewrite Nat.mod_small in Hmod by lia. lia.
  - intros a b c d rest IH Hall j x Hj. rewrite group_thousands_step in Hj.
    inversion Hall as [| ? ? Ha Hall1]; subst.
    inversion Hall1 as [| ? ? Hb Hall2]; subst.
    inversion Hall2 as [| ? ? Hc Hall3]; subst.
    destruct j as [|[|[|[|j]]]]; cbn [nth_error] in Hj.
    + injection Hj as <-. split; [intros ->; discriminate | discriminate].
    + injection Hj as <-. split; [intros ->; discriminate | discriminate].
    + injection Hj as <-. split; [intros ->; discriminate | discriminate].
    + injection Hj as <-. split; reflexivity.
    + rewrite (IH Hall3 j x Hj).
      replace (S (S (S (S j)))) with (j + 1 * 4)%nat by lia.
      now rewrite Nat.Div0.mod_add.
Qed.

Lemma group_thousands_last (rd : list ascii) (x : ascii) :
  last (group_thousands rd) x = last rd x.
Proof.
  pattern rd. apply groups_ind; clear rd.
  - intros rd Hlen. now rewrite group_thousands_small.
  - intros a b c d rest IH. rewrite group_thousands_step.
    change (last (a :: b :: c :: d :: rest) x) with (last (d :: rest) x).
    rewrite <- IH.
    destruct (group_thousands (d :: rest)) as [|y l] eqn:E; [| reflexivity].
    exfalso. destruct rest as [|e [|f [|g rest]]]; discriminate.
Qed.

(** In the text of the record count, read from the right, the commas sit
    at every fourth place and nowhere else, so the digits come in groups
    of three; and the text never begins with a comma. *)
Theorem format_thousands_groups (n : nat) :
  (forall j c,
     nth_error (rev (list_ascii_of_string (format_thousands n))) j = Some c ->
     (c = ","%char <-> j mod 4 = 3)%nat) /\
  (exists c rest, format_thousands n = String c rest /\ c <> ","%char).
Proof.
  unfold format_thousands.
  set (rd := rev (list_ascii_of_string (decimal n))).
  assert (Hall : Forall (fun c => Ascii.eqb c ","%char = false) rd).
  { unfold rd, decimal. apply Forall_rev, digits_no_comma. }
  split.
  - intros j c. rewrite list_ascii_of_string_of_list_ascii, rev_involutive.
    now apply group_thousands_commas.
  - assert (Hne : rd <> []).
    { unfold rd, decimal. intros Hnil.
      apply (f_equal (@rev ascii)) in Hnil. rewrite rev_involutive in Hnil.
      simpl in Hnil.
      pose proof (DecimalString.NilEmpty.usu (Nat.to_uint n)) as Hu.
      destruct (DecimalString.NilEmpty.string_of_uint (Nat.to_uint n));
        [| discriminate].
      simpl in Hu. injection Hu as Hu.
      pose proof (DecimalNat.Unsigned.of_to n) as Hof.
      rewrite <- Hu in Hof. simpl in Hof. subst n. discriminate. }
    pose proof (group_thousands_last rd ","%char) as Hlast.
    destruct (rev (group_thousands rd)) as [|c l] eqn:Hrev.
    + apply (f_equal (@rev ascii)) in Hrev. rewrite rev_involutive in Hrev.
      simpl in Hrev. rewrite Hrev in Hlast. simpl in Hlast.
      destruct (exists_last Hne) as (l' & y & Hl'). rewrite Hl' in Hlast, Hall.
      rewrite last_last in Hlast. subst y.
      apply Forall_app in Hall. destruct Hall as [_ Hy].
      inversion Hy; discriminate.
    + exists c, (string_of_list_ascii l). split; [reflexivity |].
      apply (f_equal (@rev ascii)) in Hrev. rewrite rev_involutive in Hrev.
      simpl in Hrev. rewrite Hrev, last_last in Hlast.
      destruct (exists_last Hne) as (l' & y & Hl'). rewrite Hl' in Hlast, Hall.
      rewrite last_last in Hlast. subst y.
      apply Forall_app in Hall. destruct Hall as [_ Hy].
      inversion Hy as [| ? ? Hc _]; subst. intros ->. discriminate.
Qed.
